(** * tinyrv: instruction decoder and Tomasulo core, shallow embedding

    The development follows the two source files of the simulator:
    - [src/decode.cpp]: [Core::decode], a pure function on a 32-bit word;
    - [src/ooo.cpp]: the four pipeline stages [Core::issue],
      [Core::execute], [Core::writeback] and [Core::commit].

    32-bit machine values ([uint32_t]) are integers of [Z] in the range
    [0 .. 2^32), with the wrap-around written out where an operation can
    leave that range.  Fallible code returns an [outcome]. *)

From Stdlib Require Import ZArith Lia Bool List.
From stdpp Require Import base option list gmap.
From Stdlib Require String DecimalString HexadecimalString.
Import String.StringSyntax.
Delimit Scope string_scope with string.

Local Open Scope Z_scope.

(** ** Outcomes of fallible code *)

(** The ways the C++ code stops instead of returning. *)
Inductive fault : Type :=
| StdAbort        (* std::abort() *)
| OutOfRange      (* std::vector::at, index out of range *)
| NullDeref       (* dereference of an empty shared pointer *)
| AssertFail.     (* assert(...) that does not hold *)

Inductive outcome (A : Type) : Type :=
| Ok (a : A)
| Fault (f : fault).
Arguments Ok {A} a.
Arguments Fault {A} f.

Definition bind {A B : Type} (m : outcome A) (k : A -> outcome B) : outcome B :=
  match m with
  | Ok a => k a
  | Fault f => Fault f
  end.

Notation "'do' x <- m ; k" := (bind m (fun x => k))
  (at level 10, x pattern, m at level 100, k at level 200).

(** ** Enumerations of types.h *)

Module Opcode.
Inductive t : Type := R | L | I | S | B | LUI | AUIPC | JAL | JALR | SYS | FENCE.

Definition eqb (a b : t) : bool :=
    match a, b with
    | R, R | L, L | I, I | S, S | B, B | LUI, LUI | AUIPC, AUIPC
    | JAL, JAL | JALR, JALR | SYS, SYS | FENCE, FENCE => true
    | _, _ => false
    end.

  (** Modelled from the spec: the numeric values of [enum class Opcode]
      (types.h is not among the sources).  The spec fixes the encoding as
      bit-exact RV32I, whose major opcodes these are. *)
Definition of_bits (v : Z) : option t :=
    match v with
    | 0x33 => Some R
    | 0x03 => Some L
    | 0x13 => Some I
    | 0x23 => Some S
    | 0x63 => Some B
    | 0x37 => Some LUI
    | 0x17 => Some AUIPC
    | 0x6f => Some JAL
    | 0x67 => Some JALR
    | 0x73 => Some SYS
    | 0x0f => Some FENCE
    | _ => None
    end.

Definition to_bits (o : t) : Z :=
    match o with
    | R => 0x33 | L => 0x03 | I => 0x13 | S => 0x23 | B => 0x63
    | LUI => 0x37 | AUIPC => 0x17 | JAL => 0x6f | JALR => 0x67
    | SYS => 0x73 | FENCE => 0x0f
    end.
End Opcode.

Module InstType.
Inductive t : Type := R | I | S | B | U | J.
End InstType.

Module AluOp.
Inductive t : Type := NONE | ADD | SUB | SLL | SRL | SRA | LTI | LTU | XOR | OR | AND.
End AluOp.

Module BrOp.
Inductive t : Type := NONE | BEQ | BNE | BLT | BGE | BLTU | BGEU | JAL | JALR.

Definition is_none (b : t) : bool :=
    match b with NONE => true | _ => false end.
End BrOp.

Module FUType.
Inductive t : Type := ALU | BRU | LSU | SFU | NONE.

  (** Modelled from the spec: the position of each unit in [FUs_]
      (the enumerators' values; types.h is not among the sources), in the
      order the spec lists them. *)
Definition index (f : t) : nat :=
    match f with ALU => 0 | BRU => 1 | LSU => 2 | SFU => 3 | NONE => 4 end%nat.
End FUType.

(** ** decode.cpp: constants and table *)

(** [sc_instTable], as the association list the source initialises it with. *)
Definition sc_instTable : list (Opcode.t * InstType.t) :=
  [ (Opcode.R,     InstType.R);
    (Opcode.L,     InstType.I);
    (Opcode.I,     InstType.I);
    (Opcode.S,     InstType.S);
    (Opcode.B,     InstType.B);
    (Opcode.LUI,   InstType.U);
    (Opcode.AUIPC, InstType.U);
    (Opcode.JAL,   InstType.J);
    (Opcode.JALR,  InstType.I);
    (Opcode.SYS,   InstType.I);
    (Opcode.FENCE, InstType.I) ].

Fixpoint table_find (o : Opcode.t) (tbl : list (Opcode.t * InstType.t)) : option InstType.t :=
  match tbl with
  | [] => None
  | (k, v) :: rest => if Opcode.eqb k o then Some v else table_find o rest
  end.

Definition width_opcode : Z := 7.
Definition width_reg    : Z := 5.
Definition width_func3  : Z := 3.
Definition width_func7  : Z := 7.
Definition width_i_imm  : Z := 12.
Definition width_j_imm  : Z := 20.

Definition shift_opcode : Z := 0.
Definition shift_rd     : Z := width_opcode.
Definition shift_func3  : Z := shift_rd + width_reg.
Definition shift_rs1    : Z := shift_func3 + width_func3.
Definition shift_rs2    : Z := shift_rs1 + width_reg.
Definition shift_func7  : Z := shift_rs2 + width_reg.

Definition mask_opcode : Z := Z.shiftl 1 width_opcode - 1.
Definition mask_reg    : Z := Z.shiftl 1 width_reg - 1.
Definition mask_func3  : Z := Z.shiftl 1 width_func3 - 1.
Definition mask_func7  : Z := Z.shiftl 1 width_func7 - 1.

(** [uint32_t] wrap-around. *)
Definition wrap32 (v : Z) : Z := v mod 2 ^ 32.

(** Modelled from the spec: [sext] of util.h (not among the sources):
    "sign-extend the low n bits of v to 32 bits".  The result is the
    [uint32_t] bit pattern. *)
Definition sext (v n : Z) : Z :=
  let mask := Z.shiftl 1 n - 1 in
  if Z.testbit v (n - 1)
  then wrap32 (Z.lor v (Z.lnot mask))
  else Z.land v mask.

(** ** instr.h: decoded instruction *)

Record ExeFlags : Type := mkExeFlags {
  use_rd : bool;
  use_rs1 : bool;
  use_rs2 : bool;
  use_imm : bool;
  alu_s1_PC : bool;
  alu_s1_inv : bool;
  alu_s1_rs1 : bool;
  alu_s2_imm : bool;
  alu_s2_csr : bool;
  is_load : bool;
  is_store : bool;
  is_csr : bool;
  is_exit : bool
}.

(** [memset(&exe_flags, 0, sizeof(ExeFlags))] *)
Definition flags0 : ExeFlags :=
  mkExeFlags false false false false false false false false false false false false false.

Definition set_use_rd (b : bool) (f : ExeFlags) : ExeFlags :=
  mkExeFlags b (use_rs1 f) (use_rs2 f) (use_imm f) (alu_s1_PC f) (alu_s1_inv f)
    (alu_s1_rs1 f) (alu_s2_imm f) (alu_s2_csr f) (is_load f) (is_store f) (is_csr f) (is_exit f).
Definition set_use_rs1 (b : bool) (f : ExeFlags) : ExeFlags :=
  mkExeFlags (use_rd f) b (use_rs2 f) (use_imm f) (alu_s1_PC f) (alu_s1_inv f)
    (alu_s1_rs1 f) (alu_s2_imm f) (alu_s2_csr f) (is_load f) (is_store f) (is_csr f) (is_exit f).
Definition set_use_rs2 (b : bool) (f : ExeFlags) : ExeFlags :=
  mkExeFlags (use_rd f) (use_rs1 f) b (use_imm f) (alu_s1_PC f) (alu_s1_inv f)
    (alu_s1_rs1 f) (alu_s2_imm f) (alu_s2_csr f) (is_load f) (is_store f) (is_csr f) (is_exit f).
Definition set_use_imm (b : bool) (f : ExeFlags) : ExeFlags :=
  mkExeFlags (use_rd f) (use_rs1 f) (use_rs2 f) b (alu_s1_PC f) (alu_s1_inv f)
    (alu_s1_rs1 f) (alu_s2_imm f) (alu_s2_csr f) (is_load f) (is_store f) (is_csr f) (is_exit f).
Definition set_alu_s1_PC (b : bool) (f : ExeFlags) : ExeFlags :=
  mkExeFlags (use_rd f) (use_rs1 f) (use_rs2 f) (use_imm f) b (alu_s1_inv f)
    (alu_s1_rs1 f) (alu_s2_imm f) (alu_s2_csr f) (is_load f) (is_store f) (is_csr f) (is_exit f).
Definition set_alu_s1_inv (b : bool) (f : ExeFlags) : ExeFlags :=
  mkExeFlags (use_rd f) (use_rs1 f) (use_rs2 f) (use_imm f) (alu_s1_PC f) b
    (alu_s1_rs1 f) (alu_s2_imm f) (alu_s2_csr f) (is_load f) (is_store f) (is_csr f) (is_exit f).
Definition set_alu_s1_rs1 (b : bool) (f : ExeFlags) : ExeFlags :=
  mkExeFlags (use_rd f) (use_rs1 f) (use_rs2 f) (use_imm f) (alu_s1_PC f) (alu_s1_inv f)
    b (alu_s2_imm f) (alu_s2_csr f) (is_load f) (is_store f) (is_csr f) (is_exit f).
Definition set_alu_s2_imm (b : bool) (f : ExeFlags) : ExeFlags :=
  mkExeFlags (use_rd f) (use_rs1 f) (use_rs2 f) (use_imm f) (alu_s1_PC f) (alu_s1_inv f)
    (alu_s1_rs1 f) b (alu_s2_csr f) (is_load f) (is_store f) (is_csr f) (is_exit f).
Definition set_alu_s2_csr (b : bool) (f : ExeFlags) : ExeFlags :=
  mkExeFlags (use_rd f) (use_rs1 f) (use_rs2 f) (use_imm f) (alu_s1_PC f) (alu_s1_inv f)
    (alu_s1_rs1 f) (alu_s2_imm f) b (is_load f) (is_store f) (is_csr f) (is_exit f).
Definition set_is_load (b : bool) (f : ExeFlags) : ExeFlags :=
  mkExeFlags (use_rd f) (use_rs1 f) (use_rs2 f) (use_imm f) (alu_s1_PC f) (alu_s1_inv f)
    (alu_s1_rs1 f) (alu_s2_imm f) (alu_s2_csr f) b (is_store f) (is_csr f) (is_exit f).
Definition set_is_store (b : bool) (f : ExeFlags) : ExeFlags :=
  mkExeFlags (use_rd f) (use_rs1 f) (use_rs2 f) (use_imm f) (alu_s1_PC f) (alu_s1_inv f)
    (alu_s1_rs1 f) (alu_s2_imm f) (alu_s2_csr f) (is_load f) b (is_csr f) (is_exit f).
Definition set_is_csr (b : bool) (f : ExeFlags) : ExeFlags :=
  mkExeFlags (use_rd f) (use_rs1 f) (use_rs2 f) (use_imm f) (alu_s1_PC f) (alu_s1_inv f)
    (alu_s1_rs1 f) (alu_s2_imm f) (alu_s2_csr f) (is_load f) (is_store f) b (is_exit f).
Definition set_is_exit (b : bool) (f : ExeFlags) : ExeFlags :=
  mkExeFlags (use_rd f) (use_rs1 f) (use_rs2 f) (use_imm f) (alu_s1_PC f) (alu_s1_inv f)
    (alu_s1_rs1 f) (alu_s2_imm f) (alu_s2_csr f) (is_load f) (is_store f) (is_csr f) b.

Record Instr : Type := mkInstr {
  getId : Z;
  getPC : Z;
  getOpcode : Opcode.t;
  getRd : Z;
  getRs1 : Z;
  getRs2 : Z;
  getImm : Z;
  getFunc3 : Z;
  getFunc7 : Z;
  getAluOp : AluOp.t;
  getBrOp : BrOp.t;
  getExeFlags : ExeFlags;
  getFUType : FUType.t
}.

(** ** decode.cpp: [Core::decode] *)

(** The raw fields, as the first lines of [Core::decode] extract them. *)
Definition field_opcode (instr_code : Z) : Z := Z.land (Z.shiftr instr_code shift_opcode) mask_opcode.
Definition field_func3 (instr_code : Z) : Z := Z.land (Z.shiftr instr_code shift_func3) mask_func3.
Definition field_func7 (instr_code : Z) : Z := Z.land (Z.shiftr instr_code shift_func7) mask_func7.
Definition field_rd (instr_code : Z) : Z := Z.land (Z.shiftr instr_code shift_rd) mask_reg.
Definition field_rs1 (instr_code : Z) : Z := Z.land (Z.shiftr instr_code shift_rs1) mask_reg.
Definition field_rs2 (instr_code : Z) : Z := Z.land (Z.shiftr instr_code shift_rs2) mask_reg.

(** "instruction type decoding": the [switch (inst_type)] block.  It yields
    the flags and the immediate. *)
Definition decode_type (inst_type : InstType.t) (opcode : Opcode.t)
    (instr_code func3 func7 rd rs2 : Z) : outcome (ExeFlags * Z) :=
  let exe_flags := flags0 in
  let imm := 0 in
  match inst_type with
  | InstType.R =>
      Ok (set_use_rs2 true (set_use_rs1 true (set_use_rd true exe_flags)), imm)
  | InstType.I =>
      match opcode with
      | Opcode.I =>
          let exe_flags :=
            set_alu_s2_imm true (set_use_imm true (set_use_rs1 true (set_use_rd true exe_flags))) in
          if (func3 =? 0x1) || (func3 =? 0x5)
          then Ok (exe_flags, rs2)
          else
            let imm12 := Z.shiftr instr_code shift_rs2 in
            Ok (exe_flags, sext imm12 width_i_imm)
      | Opcode.L | Opcode.JALR =>
          let exe_flags :=
            set_alu_s2_imm true (set_use_imm true (set_use_rs1 true (set_use_rd true exe_flags))) in
          let imm12 := Z.shiftr instr_code shift_rs2 in
          Ok (exe_flags, sext imm12 width_i_imm)
      | Opcode.SYS =>
          let exe_flags := set_use_imm true exe_flags in
          let imm12 := Z.shiftr instr_code shift_rs2 in
          let exe_flags :=
            if negb (func3 =? 0)
            then
              let exe_flags := set_use_rd true exe_flags in
              if func3 <? 5 then set_use_rs1 true exe_flags else exe_flags
            else exe_flags in
          Ok (exe_flags, imm12)
      | Opcode.FENCE => Ok (exe_flags, imm)
      | _ => Fault StdAbort
      end
  | InstType.S =>
      let exe_flags :=
        set_alu_s2_imm true (set_use_imm true (set_use_rs2 true (set_use_rs1 true exe_flags))) in
      let imm12 := Z.lor (Z.shiftl func7 width_reg) rd in
      Ok (exe_flags, sext imm12 width_i_imm)
  | InstType.B =>
      let exe_flags :=
        set_alu_s2_imm true (set_use_imm true (set_use_rs2 true (set_use_rs1 true exe_flags))) in
      let bit_11 := Z.land rd 0x1 in
      let bits_4_1 := Z.shiftr rd 1 in
      let bit_10_5 := Z.land func7 0x3f in
      let bit_12 := Z.shiftr func7 6 in
      let imm12 :=
        Z.lor (Z.lor (Z.lor (Z.shiftl bits_4_1 1) (Z.shiftl bit_10_5 5))
                     (Z.shiftl bit_11 11))
              (Z.shiftl bit_12 12) in
      Ok (exe_flags, sext imm12 (width_i_imm + 1))
  | InstType.U =>
      let exe_flags := set_alu_s2_imm true (set_use_imm true (set_use_rd true exe_flags)) in
      let imm20 := Z.shiftr instr_code shift_func3 in
      Ok (exe_flags, wrap32 (Z.shiftl imm20 shift_func3))
  | InstType.J =>
      let exe_flags := set_alu_s2_imm true (set_use_imm true (set_use_rd true exe_flags)) in
      let unordered := Z.shiftr instr_code shift_func3 in
      let bits_19_12 := Z.land unordered 0xff in
      let bit_11 := Z.land (Z.shiftr unordered 8) 0x1 in
      let bits_10_1 := Z.land (Z.shiftr unordered 9) 0x3ff in
      let bit_20 := Z.land (Z.shiftr unordered 19) 0x1 in
      let imm20 :=
        Z.lor (Z.lor (Z.lor (Z.shiftl bits_10_1 1) (Z.shiftl bit_11 11))
                     (Z.shiftl bits_19_12 12))
              (Z.shiftl bit_20 20) in
      Ok (exe_flags, sext imm20 (width_j_imm + 1))
  end.

(** "prevent write to x0" *)
Definition prevent_x0 (rd : Z) (exe_flags : ExeFlags) : ExeFlags :=
  if use_rd exe_flags && (rd =? 0) then set_use_rd false exe_flags else exe_flags.

(** The [switch (func3)] shared by [Opcode::R] and [Opcode::I]. *)
Definition decode_alu (opcode : Opcode.t) (func3 func7 : Z) : outcome AluOp.t :=
  match func3 with
  | 0 => if Opcode.eqb opcode Opcode.R && negb (func7 =? 0)
         then Ok AluOp.SUB
         else Ok AluOp.ADD
  | 1 => Ok AluOp.SLL
  | 2 => Ok AluOp.LTI
  | 3 => Ok AluOp.LTU
  | 4 => Ok AluOp.XOR
  | 5 => Ok (if negb (func7 =? 0) then AluOp.SRA else AluOp.SRL)
  | 6 => Ok AluOp.OR
  | 7 => Ok AluOp.AND
  | _ => Fault StdAbort
  end.

(** "instruction opcode decoding": the [switch (opcode)] block.  It yields
    the ALU and branch micro-ops and the updated flags. *)
Definition decode_op (opcode : Opcode.t) (func3 func7 imm : Z) (exe_flags : ExeFlags)
    : outcome (AluOp.t * BrOp.t * ExeFlags) :=
  let alu_op := AluOp.NONE in
  let br_op := BrOp.NONE in
  match opcode with
  | Opcode.LUI => Ok (AluOp.ADD, br_op, exe_flags)
  | Opcode.AUIPC => Ok (AluOp.ADD, br_op, set_alu_s1_PC true exe_flags)
  | Opcode.R | Opcode.I =>
      do alu_op <- decode_alu opcode func3 func7;
      Ok (alu_op, br_op, exe_flags)
  | Opcode.B =>
      let exe_flags := set_alu_s1_PC true exe_flags in
      let alu_op := AluOp.ADD in
      match func3 with
      | 0 => Ok (alu_op, BrOp.BEQ, exe_flags)
      | 1 => Ok (alu_op, BrOp.BNE, exe_flags)
      | 4 => Ok (alu_op, BrOp.BLT, exe_flags)
      | 5 => Ok (alu_op, BrOp.BGE, exe_flags)
      | 6 => Ok (alu_op, BrOp.BLTU, exe_flags)
      | 7 => Ok (alu_op, BrOp.BGEU, exe_flags)
      | _ => Fault StdAbort
      end
  | Opcode.JAL => Ok (AluOp.ADD, BrOp.JAL, set_alu_s1_PC true exe_flags)
  | Opcode.JALR => Ok (AluOp.ADD, BrOp.JALR, exe_flags)
  | Opcode.L => Ok (AluOp.ADD, br_op, set_is_load true exe_flags)
  | Opcode.S => Ok (AluOp.ADD, br_op, set_is_store true exe_flags)
  | Opcode.SYS =>
      if func3 =? 0
      then
        let alu_op := AluOp.ADD in
        (* switch (imm) *)
        if (imm =? 0x000) || (imm =? 0x001)
        then Ok (alu_op, br_op, set_is_exit true exe_flags)
        else if (imm =? 0x002) || (imm =? 0x102) || (imm =? 0x302)
        then Ok (alu_op, br_op, exe_flags)
        else Fault StdAbort
      else
        let exe_flags := set_alu_s2_csr true (set_is_csr true exe_flags) in
        match func3 with
        | 1 => Ok (AluOp.ADD, br_op, exe_flags)
        | 2 => Ok (AluOp.OR, br_op, exe_flags)
        | 3 => Ok (AluOp.AND, br_op, set_alu_s1_inv true exe_flags)
        | 5 => Ok (AluOp.ADD, br_op, set_alu_s1_rs1 true exe_flags)
        | 6 => Ok (AluOp.OR, br_op, set_alu_s1_rs1 true exe_flags)
        | 7 => Ok (AluOp.AND, br_op, set_alu_s1_rs1 true (set_alu_s1_inv true exe_flags))
        | _ => Fault StdAbort
        end
  | Opcode.FENCE => Ok (alu_op, br_op, exe_flags)
  end.

(** "Functional unit type decoding" *)
Definition decode_fu (exe_flags : ExeFlags) (br_op : BrOp.t) : FUType.t :=
  if is_load exe_flags || is_store exe_flags then FUType.LSU
  else if is_csr exe_flags then FUType.SFU
  else if negb (BrOp.is_none br_op) then FUType.BRU
  else FUType.ALU.

(** [Core::decode].  [Ok (Some i)] is a decoded instruction, [Ok None] the
    [nullptr] result, and [Fault StdAbort] a call of [std::abort]. *)
Definition decode (instr_code PC uuid : Z) : outcome (option Instr) :=
  let func3 := field_func3 instr_code in
  let func7 := field_func7 instr_code in
  let rd := field_rd instr_code in
  let rs1 := field_rs1 instr_code in
  let rs2 := field_rs2 instr_code in
  match Opcode.of_bits (field_opcode instr_code) with
  | None => Ok None
  | Some opcode =>
      match table_find opcode sc_instTable with
      | None => Ok None
      | Some inst_type =>
          do (exe_flags, imm) <- decode_type inst_type opcode instr_code func3 func7 rd rs2;
          let exe_flags := prevent_x0 rd exe_flags in
          do (alu_op, br_op, exe_flags) <- decode_op opcode func3 func7 imm exe_flags;
          let fu_type := decode_fu exe_flags br_op in
          Ok (Some (mkInstr uuid PC opcode rd rs1 rs2 imm func3 func7
                            alu_op br_op exe_flags fu_type))
      end
  end.

(** ** Bit fields of an instruction word, in the spec's notation *)

(** [bits w hi lo] is the spec's [instr[hi:lo]], [bit w i] its [instr[i]]. *)
Definition bits (w hi lo : Z) : Z := Z.land (Z.shiftr w lo) (Z.ones (hi - lo + 1)).
Definition bit (w i : Z) : Z := bits w i i.

(** The words on which [decode] calls [std::abort]: the func3 and
    immediate combinations that fall into a [default:] label. *)
Definition aborting (opcode : Opcode.t) (func3 imm12 : Z) : bool :=
  match opcode with
  | Opcode.B => (func3 =? 2) || (func3 =? 3)
  | Opcode.SYS =>
      if func3 =? 0
      then negb ((imm12 =? 0x000) || (imm12 =? 0x001) || (imm12 =? 0x002)
                 || (imm12 =? 0x102) || (imm12 =? 0x302))
      else func3 =? 4
  | _ => false
  end.

(** ** The B-type immediate *)

(** The 13-bit value as the spec assembles it:
    [(instr[7]<<11) | (instr[11:8]<<1) | (instr[30:25]<<5) | (instr[31]<<12)]. *)
Definition B_imm_spec (w : Z) : Z :=
  Z.lor (Z.lor (Z.lor (Z.shiftl (bit w 7) 11) (Z.shiftl (bits w 11 8) 1))
               (Z.shiftl (bits w 30 25) 5))
        (Z.shiftl (bit w 31) 12).

(** The same value as the source assembles it from [rd] and [func7]. *)
Definition B_imm_code (rd func7 : Z) : Z :=
  let bit_11 := Z.land rd 0x1 in
  let bits_4_1 := Z.shiftr rd 1 in
  let bit_10_5 := Z.land func7 0x3f in
  let bit_12 := Z.shiftr func7 6 in
  Z.lor (Z.lor (Z.lor (Z.shiftl bits_4_1 1) (Z.shiftl bit_10_5 5))
               (Z.shiftl bit_11 11))
        (Z.shiftl bit_12 12).

(** * The out-of-order core (ooo.cpp) *)

(** ** Collaborators of the core

    The classes of core.h (RAT, ROB, RS, CDB, functional units) are not
    among the sources; each is modelled from the spec's description of its
    operations. *)

(** Indexing a [std::vector]: an index outside the vector is a fault, for
    [at] (which throws) and for [operator[]] alike. *)
Definition vec_at {A : Type} (v : list A) (i : Z) : outcome A :=
  if i <? 0 then Fault OutOfRange
  else match v !! Z.to_nat i with
       | Some a => Ok a
       | None => Fault OutOfRange
       end.

Definition vec_set {A : Type} (v : list A) (i : Z) (a : A) : outcome (list A) :=
  if (i <? 0) || (Z.of_nat (length v) <=? i) then Fault OutOfRange
  else Ok (<[Z.to_nat i := a]> v).

(** Modelled from the spec: the value carried by the CDB and returned by a
    functional unit, [{result, rob_index, rs_index}]. *)
Record cdb_data_t : Type := mkCdbData {
  cdb_result : Z;
  cdb_rob_index : Z;
  cdb_rs_index : Z
}.

Module CDB.
  (** Modelled from the spec: the common data bus, a "single-slot mailbox",
      "empty or full"; "push fails if already full", "pop clears it",
      "data() peeks". *)
Definition t : Type := option cdb_data_t.

Definition empty (c : t) : bool :=
    match c with None => true | Some _ => false end.

Definition push (d : cdb_data_t) (c : t) : outcome t :=
    match c with
    | None => Ok (Some d)
    | Some _ => Fault AssertFail
    end.

Definition pop (c : t) : t := None.
End CDB.

Module ROB.
  (** Modelled from the spec: a reorder-buffer entry
      [{ instr, result: u32, ready: bool }]; [instr] is a shared pointer,
      empty in a slot never allocated. *)
Record entry_t : Type := mkEntry {
    instr : option Instr;
    result : Z;
    ready : bool
  }.

  (** Modelled from the spec: the reorder buffer, a "circular FIFO of
      configurable capacity" whose indices are absolute slot indices. *)
Record t : Type := mkROB {
    store : list entry_t;
    head : nat;
    tail : nat;
    count : nat
  }.

Definition full (r : t) : bool := (count r =? length (store r))%nat.
Definition empty (r : t) : bool := (count r =? 0)%nat.
Definition head_index (r : t) : Z := Z.of_nat (head r).
Definition get_entry (r : t) (rob_index : Z) : outcome entry_t := vec_at (store r) rob_index.

  (** "allocate(instr) -> rob_index (returns the absolute slot index)" *)
Definition allocate (i : Instr) (r : t) : Z * t :=
    (Z.of_nat (tail r),
     mkROB (<[tail r := mkEntry (Some i) 0 false]> (store r))
           (head r)
           (S (tail r) mod length (store r))%nat
           (S (count r))).

  (** "update(cdb_data) sets result and ready=true for the entry at
      cdb_data.rob_index" *)
Definition update (d : cdb_data_t) (r : t) : outcome t :=
    do e <- vec_at (store r) (cdb_rob_index d);
    do st <- vec_set (store r) (cdb_rob_index d) (mkEntry (instr e) (cdb_result d) true);
    Ok (mkROB st (head r) (tail r) (count r)).

  (** "pop() retires the head" *)
Definition pop (r : t) : t :=
    mkROB (store r) (S (head r) mod length (store r))%nat (tail r) (Nat.pred (count r)).

  (** The reset state: [n] slots, none allocated. *)
Definition init (n : nat) : t := mkROB (replicate n (mkEntry None 0 false)) 0 0 0.
End ROB.

Module RS.
  (** Modelled from the spec: a reservation-station entry
      [{ valid, running, instr, rob_index, rs1_tag, rs2_tag, rs1_data,
      rs2_data }], a tag of -1 meaning that the operand is ready. *)
Record entry_t : Type := mkEntry {
    valid : bool;
    running : bool;
    instr : option Instr;
    rob_index : Z;
    rs1_tag : Z;
    rs2_tag : Z;
    rs1_data : Z;
    rs2_data : Z
  }.

Definition t : Type := list entry_t.

Definition set_running (b : bool) (e : entry_t) : entry_t :=
    mkEntry (valid e) b (instr e) (rob_index e) (rs1_tag e) (rs2_tag e) (rs1_data e) (rs2_data e).

  (** "operands_ready() <=> rs1_tag == -1 /\ rs2_tag == -1" *)
Definition operands_ready (e : entry_t) : bool := (rs1_tag e =? -1) && (rs2_tag e =? -1).

  (** "for each operand tag matching cdb_data.rs_index, set the
      corresponding data to cdb_data.result and clear the tag" *)
Definition update_operands (d : cdb_data_t) (e : entry_t) : entry_t :=
    let '(t1, d1) :=
      if rs1_tag e =? cdb_rs_index d then (-1, cdb_result d) else (rs1_tag e, rs1_data e) in
    let '(t2, d2) :=
      if rs2_tag e =? cdb_rs_index d then (-1, cdb_result d) else (rs2_tag e, rs2_data e) in
    mkEntry (valid e) (running e) (instr e) (rob_index e) t1 t2 d1 d2.

Definition size (rs : t) : nat := length rs.
Definition full (rs : t) : bool := forallb valid rs.
Definition get_entry (rs : t) (rs_index : Z) : outcome entry_t := vec_at rs rs_index.

  (** The first free slot, counted from [base]. *)
Fixpoint free_slot (base : nat) (rs : t) : option nat :=
    match rs with
    | [] => None
    | e :: rest => if valid e then free_slot (S base) rest else Some base
    end.

  (** "selects any free slot, marks it valid, sets running=false" (the
      first free slot is taken); without a free slot the call fails. *)
Definition issue (rob_index rs1_tag rs2_tag rs1_data rs2_data : Z) (i : Instr) (rs : t)
      : outcome (Z * t) :=
    match free_slot 0 rs with
    | None => Fault AssertFail
    | Some k =>
        Ok (Z.of_nat k,
            <[k := mkEntry true false (Some i) rob_index rs1_tag rs2_tag rs1_data rs2_data]> rs)
    end.

  (** "release(rs_index) -- clears valid and running" *)
Definition release (rs_index : Z) (rs : t) : outcome t :=
    do e <- vec_at rs rs_index;
    vec_set rs rs_index
      (mkEntry false false (instr e) (rob_index e) (rs1_tag e) (rs2_tag e)
               (rs1_data e) (rs2_data e)).

  (** The reset state: [n] free slots. *)
Definition init (n : nat) : t := replicate n (mkEntry false false None 0 (-1) (-1) 0 0).
End RS.

(** Modelled from the spec: the functional-unit contract (4.7),
    [issue] / [execute] / [done] / [get_output] / [clear]; what a unit
    computes is left to the instance. *)
Class FunctionalUnit (FU : Type) : Type := {
  fu_issue : Instr -> Z -> Z -> Z -> Z -> FU -> FU;
  fu_execute : FU -> FU;
  fu_done : FU -> bool;
  fu_get_output : FU -> cdb_data_t;
  fu_clear : FU -> FU
}.

(** ** The core state and the four stages *)

Section CoreModel.

Context {FU : Type} `{FunctionalUnit FU}.

(** Modelled from the spec: [RS_.locked(rs_index)], the LSU memory-ordering
    lock.  The spec leaves the policy open ("under-specified"), so it is a
    parameter of the model. *)
Variable RS_locked : RS.t -> Z -> bool.

(** The members of [Core] the stages use.  [RAT_] maps a register to the
    ROB index of its in-flight producer and has no entry for a register
    whose value is in the register file; [RST_] is the map the source
    indexes with [RST_[...]]. *)
Record Core : Type := mkCore {
  issue_queue_ : list Instr;
  RS_ : RS.t;
  ROB_ : ROB.t;
  RAT_ : gmap Z Z;
  RST_ : gmap Z Z;
  reg_file_ : list Z;
  CDB_ : CDB.t;
  FUs_ : list FU;
  perf_stats_instrs : Z;
  fetched_instrs_ : Z;
  exited_ : bool
}.

(** The operand-reading block of [Core::issue], which the source writes
    out once for rs1 and once for rs2.  It yields the operand data and the
    tag ([rs1_rsid] / [rs2_rsid]); both start as [0] and [-1]. *)
Definition read_operand (c : Core) (used : bool) (rs : Z) : outcome (Z * Z) :=
  let rs_data := 0 in
  let rs_rsid := -1 in
  if used then
    match RAT_ c !! rs with
    | Some rob_id =>
        do rob_entry <- ROB.get_entry (ROB_ c) rob_id;
        if ROB.ready rob_entry
        then Ok (ROB.result rob_entry, rs_rsid)
        else Ok (rs_data, rob_id)
    | None =>
        do v <- vec_at (reg_file_ c) rs;
        Ok (v, rs_rsid)
    end
  else Ok (rs_data, rs_rsid).

(** [Core::issue] *)
Definition issue (c : Core) : outcome Core :=
  match issue_queue_ c with
  | [] => Ok c
  | instr :: queue_rest =>
      let exe_flags := getExeFlags instr in
      if RS.full (RS_ c) then Ok c
      else if ROB.full (ROB_ c) then Ok c
      else
        let rs1 := getRs1 instr in
        let rs2 := getRs2 instr in
        do (rs1_data, rs1_rsid) <- read_operand c (use_rs1 exe_flags) rs1;
        do (rs2_data, rs2_rsid) <- read_operand c (use_rs2 exe_flags) rs2;
        let '(rob_index, rob) := ROB.allocate instr (ROB_ c) in
        let rat :=
          if use_rd exe_flags then <[getRd instr := rob_index]> (RAT_ c) else RAT_ c in
        do (rs_index, rs) <-
           RS.issue rob_index rs1_rsid rs2_rsid rs1_data rs2_data instr (RS_ c);
        let rst := <[rs2_rsid := rs_index]> (<[rs1_rsid := rs_index]> (RST_ c)) in
        Ok (mkCore queue_rest rs rob rat rst (reg_file_ c) (CDB_ c) (FUs_ c)
                   (perf_stats_instrs c) (fetched_instrs_ c) (exited_ c))
  end.

(** The second loop of [Core::execute]: every unit that reports [done]
    has its output pushed on the CDB and is cleared. *)
Fixpoint publish_done (fus : list FU) (cdb : CDB.t) : outcome (list FU * CDB.t) :=
  match fus with
  | [] => Ok ([], cdb)
  | fu :: rest =>
      if fu_done fu then
        let output := fu_get_output fu in
        do cdb1 <- CDB.push (mkCdbData (cdb_result output) (cdb_rob_index output)
                                       (cdb_rs_index output)) cdb;
        let fu1 := fu_clear fu in
        do (rest1, cdb2) <- publish_done rest cdb1;
        Ok (fu1 :: rest1, cdb2)
      else
        do (rest1, cdb1) <- publish_done rest cdb;
        Ok (fu :: rest1, cdb1)
  end.

(** One iteration of the third loop of [Core::execute]. *)
Definition dispatch_one (rs_index : nat) (rs : RS.t) (fus : list FU)
    : outcome (RS.t * list FU) :=
  do entry <- RS.get_entry rs (Z.of_nat rs_index);
  if RS.valid entry && negb (RS.running entry) && RS.operands_ready entry
     && negb (RS_locked rs (Z.of_nat rs_index))
  then
    match RS.instr entry with
    | None => Fault NullDeref
    | Some instr =>
        let fu_type := getFUType instr in
        match fus !! FUType.index fu_type with
        | None => Fault OutOfRange
        | Some fu =>
            let fu1 := fu_issue instr (RS.rob_index entry) (Z.of_nat rs_index)
                                (RS.rs1_data entry) (RS.rs2_data entry) fu in
            Ok (<[rs_index := RS.set_running true entry]> rs,
                <[FUType.index fu_type := fu1]> fus)
        end
    end
  else Ok (rs, fus).

(** The third loop, [n] iterations from [rs_index]. *)
Fixpoint dispatch_from (n rs_index : nat) (rs : RS.t) (fus : list FU)
    : outcome (RS.t * list FU) :=
  match n with
  | O => Ok (rs, fus)
  | S n1 =>
      do (rs1, fus1) <- dispatch_one rs_index rs fus;
      dispatch_from n1 (S rs_index) rs1 fus1
  end.

(** [Core::execute] *)
Definition execute (c : Core) : outcome Core :=
  let fus := map fu_execute (FUs_ c) in
  do (fus1, cdb) <- publish_done fus (CDB_ c);
  do (rs, fus2) <- dispatch_from (RS.size (RS_ c)) 0 (RS_ c) fus1;
  Ok (mkCore (issue_queue_ c) rs (ROB_ c) (RAT_ c) (RST_ c) (reg_file_ c) cdb fus2
             (perf_stats_instrs c) (fetched_instrs_ c) (exited_ c)).

(** [Core::writeback] *)
Definition writeback (c : Core) : outcome Core :=
  match CDB_ c with
  | None => Ok c
  | Some cdb_data =>
      let rs := map (RS.update_operands cdb_data) (RS_ c) in
      do rs1 <- RS.release (cdb_rs_index cdb_data) rs;
      do rob <- ROB.update cdb_data (ROB_ c);
      Ok (mkCore (issue_queue_ c) rs1 rob (RAT_ c) (RST_ c) (reg_file_ c)
                 (CDB.pop (CDB_ c)) (FUs_ c)
                 (perf_stats_instrs c) (fetched_instrs_ c) (exited_ c))
  end.

(** The [if (exe_flags.use_rd)] block of [Core::commit]: the register-file
    write and the guarded clearing of the RAT. *)
Definition commit_write (c : Core) (head_index : Z) (rob_head : ROB.entry_t) (instr : Instr)
    : outcome (list Z * gmap Z Z) :=
  if use_rd (getExeFlags instr) then
    do regs <- vec_set (reg_file_ c) (getRd instr) (ROB.result rob_head);
    if bool_decide (RAT_ c !! getRd instr = Some head_index)
    then Ok (regs, delete (getRd instr) (RAT_ c))
    else Ok (regs, RAT_ c)
  else Ok (reg_file_ c, RAT_ c).

(** [Core::commit] *)
Definition commit (c : Core) : outcome Core :=
  if ROB.empty (ROB_ c) then Ok c
  else
    let head_index := ROB.head_index (ROB_ c) in
    do rob_head <- ROB.get_entry (ROB_ c) head_index;
    if ROB.ready rob_head then
      match ROB.instr rob_head with
      | None => Fault NullDeref
      | Some instr =>
          let exe_flags := getExeFlags instr in
          do (regs, rat) <- commit_write c head_index rob_head instr;
          let rob := ROB.pop (ROB_ c) in
          if perf_stats_instrs c <=? fetched_instrs_ c then
            let instrs := (perf_stats_instrs c + 1) mod 2 ^ 64 in
            let exited := if is_exit exe_flags then true else exited_ c in
            Ok (mkCore (issue_queue_ c) (RS_ c) rob rat (RST_ c) regs (CDB_ c) (FUs_ c)
                       instrs (fetched_instrs_ c) exited)
          else Fault AssertFail
      end
    else Ok c.

(** ** The cycle driver *)

(** Modelled from the spec: the front end, which decodes fetched words and
    delivers them to the issue queue in fetch order; a word that does not
    decode stops the simulation. *)
Fixpoint deliver (fetched : list (Z * Z * Z)) (c : Core) : outcome Core :=
  match fetched with
  | [] => Ok c
  | (instr_code, PC, uuid) :: more =>
      do r <- decode instr_code PC uuid;
      match r with
      | None => Fault StdAbort
      | Some instr =>
          deliver more
            (mkCore (issue_queue_ c ++ [instr]) (RS_ c) (ROB_ c) (RAT_ c) (RST_ c)
                    (reg_file_ c) (CDB_ c) (FUs_ c) (perf_stats_instrs c)
                    ((fetched_instrs_ c + 1) mod 2 ^ 64) (exited_ c))
      end
  end.

(** Modelled from the spec: one simulated cycle, "commit, writeback,
    execute, issue", followed by the front end's deliveries of the cycle. *)
Definition tick (fetched : list (Z * Z * Z)) (c : Core) : outcome Core :=
  do c1 <- commit c;
  do c2 <- writeback c1;
  do c3 <- execute c2;
  do c4 <- issue c3;
  deliver fetched c4.

(** Modelled from the spec: the driver, which runs cycles until [exited_]
    is set; [cycles] gives the words fetched in each cycle. *)
Fixpoint run (cycles : list (list (Z * Z * Z))) (c : Core) : outcome Core :=
  match cycles with
  | [] => Ok c
  | fetched :: more =>
      if exited_ c then Ok c
      else do c1 <- tick fetched c; run more c1
  end.

(** The reset state. *)
Definition reset (rs_size rob_size : nat) (regs : list Z) (fus : list FU) : Core :=
  mkCore [] (RS.init rs_size) (ROB.init rob_size) ∅ ∅ regs None fus 0 0 false.

End CoreModel.

Arguments Core FU : clear implicits.

(** ** A functional unit to run the model on

    Modelled from the spec: the units' datapaths are outside the sources
    and the spec ("specific FU internals are out of scope"); this instance
    has the one-cycle latency the spec gives each stage, selects operand 1
    and operand 2 by [alu_s1_PC] and [alu_s2_imm], and computes the
    micro-ops the examples below use.  The theorems about the core hold for
    every instance of [FunctionalUnit]; this one only serves to evaluate
    the stages on concrete programs. *)

Record LatchFU : Type := mkLatchFU {
  latch_pending : option (Instr * Z * Z * Z * Z);
  latch_output : option cdb_data_t
}.

Definition latch_idle : LatchFU := mkLatchFU None None.

Definition latch_datapath (instr : Instr) (rs1_data rs2_data : Z) : Z :=
  let exe_flags := getExeFlags instr in
  let op1 := if alu_s1_PC exe_flags then getPC instr else rs1_data in
  let op2 := if alu_s2_imm exe_flags then getImm instr else rs2_data in
  match getBrOp instr with
  | BrOp.JAL | BrOp.JALR => wrap32 (getPC instr + 4)
  | _ =>
      match getAluOp instr with
      | AluOp.ADD => wrap32 (op1 + op2)
      | AluOp.SUB => wrap32 (op1 - op2)
      | AluOp.AND => Z.land op1 op2
      | AluOp.OR => Z.lor op1 op2
      | AluOp.XOR => Z.lxor op1 op2
      | _ => 0
      end
  end.

#[export] Instance LatchFU_unit : FunctionalUnit LatchFU := {
  fu_issue instr rob_index rs_index rs1_data rs2_data fu :=
    mkLatchFU (Some (instr, rob_index, rs_index, rs1_data, rs2_data)) (latch_output fu);
  fu_execute fu :=
    match latch_pending fu with
    | Some (instr, rob_index, rs_index, rs1_data, rs2_data) =>
        mkLatchFU None
          (Some (mkCdbData (latch_datapath instr rs1_data rs2_data) rob_index rs_index))
    | None => fu
    end;
  fu_done fu := match latch_output fu with Some _ => true | None => false end;
  fu_get_output fu :=
    match latch_output fu with Some d => d | None => mkCdbData 0 0 0 end;
  fu_clear fu := mkLatchFU (latch_pending fu) None
}.

(** No reservation station is ever locked. *)
Definition never_locked (rs : RS.t) (rs_index : Z) : bool := false.

(** The core of the spec's scenarios: 16 reservation stations, 32 ROB
    entries, a register file of 32 zeros, four idle units. *)
Definition scenario_core : Core LatchFU :=
  reset 16 32 (replicate 32 0) [latch_idle; latch_idle; latch_idle; latch_idle].

(** A core without a free reservation station and with a waiting
    instruction. *)
Definition stalled_core : Core LatchFU :=
  mkCore [mkInstr 1 0 Opcode.I 1 0 5 5 0 0 AluOp.ADD BrOp.NONE
                  (set_use_rd true flags0) FUType.ALU]
         (RS.init 0) (ROB.init 32) ∅ ∅ (replicate 32 0) None [] 0 1 false.

(** Two units that report [done] in the same cycle, with outputs for the
    ROB entries 1 and 2. *)
Definition latch_done (d : cdb_data_t) : LatchFU := mkLatchFU None (Some d).

Definition two_done : list LatchFU :=
  [latch_done (mkCdbData 1 2 2); latch_done (mkCdbData 8 1 1); latch_idle; latch_idle].

(** A program on which two units finish in the same cycle:
    ADDI x1,x0,5; JALR x2,x1,0; ADDI x3,x0,1.  The JALR waits for x1 and
    is dispatched to the BRU in the cycle the second ADDI is dispatched to
    the ALU. *)
Definition collision_program : list (Z * Z * Z) :=
  [(0x00500093, 0, 1); (0x00008167, 4, 2); (0x00100193, 8, 3)].

(** ** Predicates of the statements *)

(** What the dispatch loop may do to a station: nothing, or set [running]
    on a valid station that was not running and whose operands are ready. *)
Definition dispatched_or_same (e e' : RS.entry_t) : Prop :=
  e' = e
  \/ (e' = RS.set_running true e
      /\ RS.valid e = true /\ RS.running e = false /\ RS.operands_ready e = true).

Section Predicates.

Context {FU : Type}.

(** What the spec says of an operand that the issuing instruction uses:
    [data] and [tag] are the operand data and tag of the station filled,
    [c] is the core before the issue. *)
Definition operand_ok (c : Core FU) (used : bool) (rs data tag : Z) : Prop :=
  used = true ->
  match RAT_ c !! rs with
  | Some rob_id =>
      exists rob_entry,
        ROB.get_entry (ROB_ c) rob_id = Ok rob_entry
        /\ (if ROB.ready rob_entry
            then data = ROB.result rob_entry /\ tag = -1
            else tag = rob_id)
  | None => vec_at (reg_file_ c) rs = Ok data /\ tag = -1
  end.

(** The operand can be read: a mapped register points into the reorder
    buffer, an unmapped one into the register file. *)
Definition operand_readable (c : Core FU) (used : bool) (rs : Z) : Prop :=
  used = true ->
  match RAT_ c !! rs with
  | Some rob_id => 0 <= rob_id < Z.of_nat (length (ROB.store (ROB_ c)))
  | None => 0 <= rs < Z.of_nat (length (reg_file_ c))
  end.

(** An instruction that keeps the x0 rule of the decoder. *)
Definition x0_ok (i : Instr) : Prop :=
  use_rd (getExeFlags i) = true -> getRd i <> 0.

Definition x0_entry_ok (e : ROB.entry_t) : Prop :=
  match ROB.instr e with
  | Some i => x0_ok i
  | None => True
  end.

(** Register 0 reads 0, and every instruction in flight keeps the x0
    rule. *)
Definition x0_inv (c : Core FU) : Prop :=
  vec_at (reg_file_ c) 0 = Ok 0
  /\ Forall x0_ok (issue_queue_ c)
  /\ Forall x0_entry_ok (ROB.store (ROB_ c)).

End Predicates.

(** The core after two cycles of [collision_program]: the first ADDI is
    in the reorder buffer, not ready, and the JALR that reads x1 is at the
    head of the issue queue. *)
Definition pending_operand_core : Core LatchFU :=
  Eval vm_compute in
    match run never_locked [collision_program; []] scenario_core with
    | Ok c => c
    | Fault _ => scenario_core
    end.

(** Scenario 7 of the spec, two writers of x1 (ADDI x1,x0,1; ADDI x1,x0,2),
    after five cycles: the first is ready at the head of the reorder
    buffer, the RAT maps x1 to the second. *)
Definition two_writers_core : Core LatchFU :=
  Eval vm_compute in
    match run never_locked [[(0x00100093, 0, 1); (0x00200093, 4, 2)]; []; []; []; []]
              scenario_core with
    | Ok c => c
    | Fault _ => scenario_core
    end.

(** A program that names x0 as destination, ADDI x0,x0,5, and the core
    after six cycles of it. *)
Definition x0_program : list (list (Z * Z * Z)) :=
  [[(0x00500013, 0, 1)]; []; []; []; []; []].

Definition x0_program_final : Core LatchFU :=
  Eval vm_compute in
    match run never_locked x0_program scenario_core with
    | Ok c => c
    | Fault _ => scenario_core
    end.


(** ** decode.cpp: the disassembly ([op_string], [operator<<]) *)

Notation "s +++ t" := (String.append s t) (at level 60, right associativity).

(** [op_string]: the mnemonic, or [std::abort] on a [default:] label. *)
Definition op_string (instr : Instr) : outcome String.string :=
  let opcode := getOpcode instr in
  let func3 := getFunc3 instr in
  let func7 := getFunc7 instr in
  let imm := getImm instr in
  match opcode with
  | Opcode.LUI => Ok "LUI"%string
  | Opcode.AUIPC => Ok "AUIPC"%string
  | Opcode.R =>
      match func3 with
      | 0 => Ok (if negb (func7 =? 0) then "SUB" else "ADD")%string
      | 1 => Ok "SLL"%string
      | 2 => Ok "SLT"%string
      | 3 => Ok "SLTU"%string
      | 4 => Ok "XOR"%string
      | 5 => Ok (if negb (Z.land func7 0x20 =? 0) then "SRA" else "SRL")%string
      | 6 => Ok "OR"%string
      | 7 => Ok "AND"%string
      | _ => Fault StdAbort
      end
  | Opcode.I =>
      match func3 with
      | 0 => Ok "ADDI"%string
      | 1 => Ok "SLLI"%string
      | 2 => Ok "SLTI"%string
      | 3 => Ok "SLTIU"%string
      | 4 => Ok "XORI"%string
      | 5 => Ok (if negb (Z.land func7 0x20 =? 0) then "SRAI" else "SRLI")%string
      | 6 => Ok "ORI"%string
      | 7 => Ok "ANDI"%string
      | _ => Fault StdAbort
      end
  | Opcode.B =>
      match func3 with
      | 0 => Ok "BEQ"%string
      | 1 => Ok "BNE"%string
      | 4 => Ok "BLT"%string
      | 5 => Ok "BGE"%string
      | 6 => Ok "BLTU"%string
      | 7 => Ok "BGEU"%string
      | _ => Fault StdAbort
      end
  | Opcode.JAL => Ok "JAL"%string
  | Opcode.JALR => Ok "JALR"%string
  | Opcode.L =>
      match func3 with
      | 0 => Ok "LB"%string
      | 1 => Ok "LH"%string
      | 2 => Ok "LW"%string
      | 3 => Ok "LD"%string
      | 4 => Ok "LBU"%string
      | 5 => Ok "LHU"%string
      | 6 => Ok "LWU"%string
      | _ => Fault StdAbort
      end
  | Opcode.S =>
      match func3 with
      | 0 => Ok "SB"%string
      | 1 => Ok "SH"%string
      | 2 => Ok "SW"%string
      | 3 => Ok "SD"%string
      | _ => Fault StdAbort
      end
  | Opcode.SYS =>
      match func3 with
      | 0 =>
          (* switch (imm) *)
          if imm =? 0x000 then Ok "ECALL"%string
          else if imm =? 0x001 then Ok "EBREAK"%string
          else if imm =? 0x002 then Ok "URET"%string
          else if imm =? 0x102 then Ok "SRET"%string
          else if imm =? 0x302 then Ok "MRET"%string
          else Fault StdAbort
      | 1 => Ok "CSRRW"%string
      | 2 => Ok "CSRRS"%string
      | 3 => Ok "CSRRC"%string
      | 5 => Ok "CSRRWI"%string
      | 6 => Ok "CSRRSI"%string
      | 7 => Ok "CSRRCI"%string
      | _ => Fault StdAbort
      end
  | Opcode.FENCE => Ok "FENCE"%string
  end.

(** Printing an unsigned integer on the stream, after [std::dec] and after
    [std::hex] (lower-case digits, no prefix, "0" for zero). *)
Definition print_dec (v : Z) : String.string :=
  DecimalString.NilZero.string_of_uint (N.to_uint (Z.to_N v)).
Definition print_hex (v : Z) : String.string :=
  HexadecimalString.NilZero.string_of_uint (N.to_hex_uint (Z.to_N v)).

(** One of the four operand blocks of [operator<<]: the separator chosen
    by [sep++ != 0], then the operand text. *)
Definition print_operand (used : bool) (text : String.string)
    (st : String.string * nat) : String.string * nat :=
  let '(os, sep) := st in
  if used
  then (os +++ (if negb (sep =? 0)%nat then ", " else " ")%string +++ text, S sep)
  else (os, sep).

(** [operator<<(std::ostream&, const Instr&)]: the text written to the
    stream, the registers and uuid in decimal, the immediate and PC in
    hexadecimal.  The getters of instr.h return unsigned integers. *)
Definition print_instr (instr : Instr) : outcome String.string :=
  do name <- op_string instr;
  let exec_flags := getExeFlags instr in
  let st := (name, 0%nat) in
  let st := print_operand (use_rd exec_flags) ("x" +++ print_dec (getRd instr)) st in
  let st := print_operand (use_rs1 exec_flags) ("x" +++ print_dec (getRs1 instr)) st in
  let st := print_operand (use_rs2 exec_flags) ("x" +++ print_dec (getRs2 instr)) st in
  let st := print_operand (use_imm exec_flags) ("0x" +++ print_hex (getImm instr)) st in
  Ok (fst st +++ ", PC=0x" +++ print_hex (getPC instr)
             +++ " (#" +++ print_dec (getId instr) +++ ")").

(** The operand list of the spec's rendering: the used operands in the
    order rd, rs1, rs2, imm. *)
Definition operand_texts (instr : Instr) : list String.string :=
  let exec_flags := getExeFlags instr in
  (if use_rd exec_flags then ["x" +++ print_dec (getRd instr)] else [])
  ++ (if use_rs1 exec_flags then ["x" +++ print_dec (getRs1 instr)] else [])
  ++ (if use_rs2 exec_flags then ["x" +++ print_dec (getRs2 instr)] else [])
  ++ (if use_imm exec_flags then ["0x" +++ print_hex (getImm instr)] else []).

(** A mnemonic followed by its operands: a space before the first, a comma
    and a space before each of the others. *)
Definition with_operands (name : String.string) (ops : list String.string) : String.string :=
  match ops with
  | [] => name
  | first :: others =>
      fold_left (fun text o => text +++ ", " +++ o) others (name +++ " " +++ first)
  end.

(** ** The RAT and the reorder buffer *)

(** The [k]-th allocated slot of the reorder buffer, counted from the head. *)
Definition rob_slot (r : ROB.t) (k : nat) : nat :=
  ((ROB.head r + k) mod length (ROB.store r))%nat.

(** The circular buffer is in shape: the count is within the capacity, the
    head is a slot, and the tail is [count] slots after the head. *)
Definition rob_wf (r : ROB.t) : Prop :=
  (ROB.count r <= length (ROB.store r))%nat
  /\ (length (ROB.store r) = 0%nat \/ (ROB.head r < length (ROB.store r))%nat)
  /\ ROB.tail r = rob_slot r (ROB.count r).

Section RATPredicates.

Context {FU : Type}.

(** The ROB index [t] is an allocated slot whose instruction writes the
    register [r]. *)
Definition rat_entry_ok (c : Core FU) (r t : Z) : Prop :=
  exists (k : nat) (e : ROB.entry_t) (i : Instr),
    (k < ROB.count (ROB_ c))%nat
    /\ t = Z.of_nat (rob_slot (ROB_ c) k)
    /\ ROB.store (ROB_ c) !! rob_slot (ROB_ c) k = Some e
    /\ ROB.instr e = Some i
    /\ use_rd (getExeFlags i) = true
    /\ getRd i = r.

(** Every mapping of the RAT names an allocated ROB entry that writes the
    mapped register, and the instructions in flight keep the x0 rule. *)
Definition rat_inv (c : Core FU) : Prop :=
  rob_wf (ROB_ c)
  /\ (forall r t, RAT_ c !! r = Some t -> rat_entry_ok c r t)
  /\ Forall x0_ok (issue_queue_ c)
  /\ Forall x0_entry_ok (ROB.store (ROB_ c)).

End RATPredicates.

(** ** Further expressions of the statements about the decoder *)

(** The 21-bit J-type value, from the bits of the word:
    [(instr[19:12]<<12) | (instr[20]<<11) | (instr[30:21]<<1) | (instr[31]<<20)]. *)
Definition J_imm_spec (w : Z) : Z :=
  Z.lor (Z.lor (Z.lor (Z.shiftl (bits w 19 12) 12) (Z.shiftl (bit w 20) 11))
               (Z.shiftl (bits w 30 21) 1))
        (Z.shiftl (bit w 31) 20).

(** The same value as the source assembles it from [instr_code >> 12]. *)
Definition J_imm_code (instr_code : Z) : Z :=
  let unordered := Z.shiftr instr_code shift_func3 in
  let bits_19_12 := Z.land unordered 0xff in
  let bit_11 := Z.land (Z.shiftr unordered 8) 0x1 in
  let bits_10_1 := Z.land (Z.shiftr unordered 9) 0x3ff in
  let bit_20 := Z.land (Z.shiftr unordered 19) 0x1 in
  Z.lor (Z.lor (Z.lor (Z.shiftl bits_10_1 1) (Z.shiftl bit_11 11))
               (Z.shiftl bits_19_12 12))
        (Z.shiftl bit_20 20).

(** The 12-bit S-type value, [(instr[31:25]<<5) | instr[11:7]]. *)
Definition S_imm_spec (w : Z) : Z := Z.lor (Z.shiftl (bits w 31 25) 5) (bits w 11 7).

(** The word put together again from a descriptor's opcode and raw fields. *)
Definition reassemble (i : Instr) : Z :=
  Opcode.to_bits (getOpcode i)
  + getRd i * 2 ^ 7 + getFunc3 i * 2 ^ 12 + getRs1 i * 2 ^ 15
  + getRs2 i * 2 ^ 20 + getFunc7 i * 2 ^ 25.

(** * Properties of the decoder *)

Example decode_addi :
  match decode 0x00500093 0 1 with
  | Ok (Some i) => (getRd i, getRs1 i, getImm i, getAluOp i, getFUType i, use_rd (getExeFlags i))
  | _ => (0,0,0,AluOp.NONE,FUType.NONE,false) end = (1, 0, 5, AluOp.ADD, FUType.ALU, true).
Proof. reflexivity. Qed.

Example decode_ecall :
  match decode 0x00000073 0 1 with
  | Ok (Some i) => (getFUType i, is_exit (getExeFlags i), use_rd (getExeFlags i))
  | _ => (FUType.NONE, false, true) end = (FUType.ALU, true, false).
Proof. reflexivity. Qed.


Section FieldFacts.
Variable w : Z.

Lemma field_opcode_bits : field_opcode w = bits w 6 0.
  Proof. reflexivity. Qed.

Lemma field_rd_bits : field_rd w = bits w 11 7.
  Proof. reflexivity. Qed.

Lemma field_func3_bits : field_func3 w = bits w 14 12.
  Proof. reflexivity. Qed.

Lemma field_rs1_bits : field_rs1 w = bits w 19 15.
  Proof. reflexivity. Qed.

Lemma field_rs2_bits : field_rs2 w = bits w 24 20.
  Proof. reflexivity. Qed.

Lemma field_func7_bits : field_func7 w = bits w 31 25.
  Proof. reflexivity. Qed.

Lemma bits_range hi lo : lo <= hi -> 0 <= bits w hi lo < 2 ^ (hi - lo + 1).
  Proof.
    intros Hle. unfold bits. rewrite Z.land_ones by lia.
    apply Z.mod_pos_bound. apply Z.pow_pos_nonneg; lia.
  Qed.

Lemma field_func3_range : 0 <= field_func3 w < 8.
  Proof. rewrite field_func3_bits. apply (bits_range 14 12). lia. Qed.

Lemma field_func7_range : 0 <= field_func7 w < 128.
  Proof. rewrite field_func7_bits. apply (bits_range 31 25). lia. Qed.

Lemma field_rd_range : 0 <= field_rd w < 32.
  Proof. rewrite field_rd_bits. apply (bits_range 11 7). lia. Qed.

Lemma field_rs1_range : 0 <= field_rs1 w < 32.
  Proof. rewrite field_rs1_bits. apply (bits_range 19 15). lia. Qed.

Lemma field_rs2_range : 0 <= field_rs2 w < 32.
  Proof. rewrite field_rs2_bits. apply (bits_range 24 20). lia. Qed.
End FieldFacts.

(** On a 32-bit word, [instr_code >> shift_rs2] is the field [instr[31:20]]. *)
Lemma imm12_bits (w : Z) : 0 <= w < 2 ^ 32 -> Z.shiftr w shift_rs2 = bits w 31 20.
Proof.
  intros Hw. unfold bits. rewrite Z.land_ones by lia.
  change shift_rs2 with 20. rewrite Z.shiftr_div_pow2 by lia.
  symmetry. apply Z.mod_small. split.
  - apply Z.div_pos; lia.
  - apply Z.div_lt_upper_bound; lia.
Qed.

(** Case analysis on a 3-bit value. *)
Lemma func3_cases (f3 : Z) :
  0 <= f3 < 8 ->
  f3 = 0 \/ f3 = 1 \/ f3 = 2 \/ f3 = 3 \/ f3 = 4 \/ f3 = 5 \/ f3 = 6 \/ f3 = 7.
Proof. lia. Qed.

Ltac split_func3 H :=
  apply func3_cases in H;
  destruct H as [-> | [-> | [-> | [-> | [-> | [-> | [-> | ->]]]]]]].

(** Every opcode of the enumeration is a key of [sc_instTable]. *)
Lemma table_find_total (op : Opcode.t) : exists ty, table_find op sc_instTable = Some ty.
Proof. destruct op; eexists; reflexivity. Qed.

(** The type-decoding block never reaches its [default:] labels. *)
Lemma decode_type_ok op ty w f3 f7 rd rs2 :
  table_find op sc_instTable = Some ty ->
  exists fl imm, decode_type ty op w f3 f7 rd rs2 = Ok (fl, imm)
                 /\ (op = Opcode.SYS -> imm = Z.shiftr w shift_rs2).
Proof.
  intros Hty. destruct op; inversion Hty; subst ty; unfold decode_type;
    try (destruct ((f3 =? 1) || (f3 =? 5))); eexists _, _; (split; [reflexivity | ]);
    first [ discriminate | reflexivity ].
Qed.

(** The opcode-decoding block aborts exactly on the [aborting] words. *)
Lemma decode_op_cases op f3 f7 imm fl :
  0 <= f3 < 8 ->
  if aborting op f3 imm
  then decode_op op f3 f7 imm fl = Fault StdAbort
  else exists r, decode_op op f3 f7 imm fl = Ok r.
Proof.
  intros Hf3. destruct op; unfold aborting, decode_op, decode_alu.
  - split_func3 Hf3; simpl; try destruct (negb (f7 =? 0)); eauto.
  - eauto.
  - split_func3 Hf3; simpl; eauto.
  - eauto.
  - split_func3 Hf3; simpl; eauto.
  - eauto.
  - eauto.
  - eauto.
  - eauto.
  - split_func3 Hf3; simpl; eauto.
    destruct (imm =? 0), (imm =? 1), (imm =? 2), (imm =? 258), (imm =? 770); simpl; eauto.
  - eauto.
Qed.

(** [decode] unfolded once the opcode is known: the three blocks in sequence. *)
Lemma decode_known w pc uuid op ty :
  Opcode.of_bits (field_opcode w) = Some op ->
  table_find op sc_instTable = Some ty ->
  decode w pc uuid =
    (do (exe_flags, imm) <-
        decode_type ty op w (field_func3 w) (field_func7 w) (field_rd w) (field_rs2 w);
     do (alu_op, br_op, exe_flags) <-
        decode_op op (field_func3 w) (field_func7 w) imm (prevent_x0 (field_rd w) exe_flags);
     Ok (Some (mkInstr uuid pc op (field_rd w) (field_rs1 w) (field_rs2 w) imm
                       (field_func3 w) (field_func7 w) alu_op br_op exe_flags
                       (decode_fu exe_flags br_op)))).
Proof. intros Hop Hty. unfold decode. rewrite Hop, Hty. reflexivity. Qed.

(** What a successful decode consists of. *)
Lemma decode_Some_inv w pc uuid i :
  decode w pc uuid = Ok (Some i) ->
  exists op ty fl imm alu_op br_op fl',
    Opcode.of_bits (field_opcode w) = Some op
    /\ table_find op sc_instTable = Some ty
    /\ decode_type ty op w (field_func3 w) (field_func7 w) (field_rd w) (field_rs2 w)
       = Ok (fl, imm)
    /\ decode_op op (field_func3 w) (field_func7 w) imm (prevent_x0 (field_rd w) fl)
       = Ok (alu_op, br_op, fl')
    /\ i = mkInstr uuid pc op (field_rd w) (field_rs1 w) (field_rs2 w) imm
                   (field_func3 w) (field_func7 w) alu_op br_op fl' (decode_fu fl' br_op).
Proof.
  intros Hdec.
  destruct (Opcode.of_bits (field_opcode w)) as [op|] eqn:Hop;
    [ | unfold decode in Hdec; rewrite Hop in Hdec; discriminate ].
  destruct (table_find_total op) as [ty Hty].
  rewrite (decode_known _ _ _ _ _ Hop Hty) in Hdec.
  destruct (decode_type ty op w _ _ _ _) as [[fl imm]|] eqn:Hty'; [ | discriminate ].
  simpl in Hdec.
  destruct (decode_op op _ _ imm _) as [[[alu_op br_op] fl']|] eqn:Hop'; [ | discriminate ].
  simpl in Hdec. inversion Hdec; subst i.
  exists op, ty, fl, imm, alu_op, br_op, fl'. repeat split; assumption || reflexivity.
Qed.

(** The three outcomes of [decode], by the opcode field and [aborting]. *)
Lemma decode_cases (w pc uuid : Z) :
  match Opcode.of_bits (field_opcode w) with
  | None => decode w pc uuid = Ok None
  | Some op =>
      if aborting op (field_func3 w) (Z.shiftr w shift_rs2)
      then decode w pc uuid = Fault StdAbort
      else exists i, decode w pc uuid = Ok (Some i)
  end.
Proof.
  destruct (Opcode.of_bits (field_opcode w)) as [op|] eqn:Hop.
  - destruct (table_find_total op) as [ty Hty].
    rewrite (decode_known _ _ _ _ _ Hop Hty).
    destruct (decode_type_ok op ty w (field_func3 w) (field_func7 w) (field_rd w)
                (field_rs2 w) Hty) as (fl & imm & -> & Himm).
    simpl.
    pose proof (decode_op_cases op (field_func3 w) (field_func7 w) imm
                  (prevent_x0 (field_rd w) fl) (field_func3_range w)) as Hcases.
    assert (Hab : aborting op (field_func3 w) (Z.shiftr w shift_rs2)
                  = aborting op (field_func3 w) imm).
    { destruct op; try reflexivity. rewrite Himm; reflexivity. }
    rewrite Hab. destruct (aborting op (field_func3 w) imm).
    + rewrite Hcases. reflexivity.
    + destruct Hcases as [[[alu_op br_op] fl'] ->]. simpl. eauto.
  - unfold decode. rewrite Hop. reflexivity.
Qed.

(** C1 (as the code has it): [decode] returns the null pointer exactly when
    the 7-bit opcode field is outside the recognized set.  Inside a
    recognized opcode it never returns null: on a branch with func3 in {2,3},
    a SYS word with func3 = 4, or a SYS word with func3 = 0 whose 12-bit
    immediate is none of 0x000, 0x001, 0x002, 0x102, 0x302 it calls
    std::abort, and every other word is decoded to an instruction (R, I, L
    and S words with any func3 and func7 included). *)
Theorem decode_outcome (w pc uuid : Z) :
  (decode w pc uuid = Ok None <-> Opcode.of_bits (field_opcode w) = None)
  /\ (forall op, Opcode.of_bits (field_opcode w) = Some op ->
        if aborting op (field_func3 w) (Z.shiftr w shift_rs2)
        then decode w pc uuid = Fault StdAbort
        else exists i, decode w pc uuid = Ok (Some i)).
Proof.
  pose proof (decode_cases w pc uuid) as Hcases.
  destruct (Opcode.of_bits (field_opcode w)) as [op | ].
  - split.
    + split; [ | discriminate ]. intros Hnull.
      destruct (aborting op _ _); [ congruence | ].
      destruct Hcases as [i Hi]. congruence.
    + intros op' [= <-]. exact Hcases.
  - split; [ split; auto | discriminate ].
Qed.

(** C1, counterexample: three words of recognized opcodes with an
    unrecognized func3 or immediate -- a branch with func3 = 2, a SYS word
    with func3 = 4, a SYS word with func3 = 0 and immediate 3 -- on which
    [decode] does not return null but aborts. *)
Lemma decode_illegal_not_null :
  decode 0x00002063 0 0 = Fault StdAbort
  /\ decode 0x00004073 0 0 = Fault StdAbort
  /\ decode 0x00300073 0 0 = Fault StdAbort
  /\ decode 0x00002063 0 0 <> Ok None.
Proof. repeat split; try reflexivity. discriminate. Qed.

(** The descriptor's fields are the ones extracted at the top of
    [Core::decode]. *)
Lemma decode_raw_fields_of w pc uuid i :
  decode w pc uuid = Ok (Some i) ->
  getRd i = field_rd w /\ getRs1 i = field_rs1 w /\ getRs2 i = field_rs2 w
  /\ getFunc3 i = field_func3 w /\ getFunc7 i = field_func7 w.
Proof.
  intros Hdec.
  destruct (decode_Some_inv _ _ _ _ Hdec)
    as (op & ty & fl & imm & a & b & fl' & _ & _ & _ & _ & ->).
  repeat split.
Qed.

(** C10: an accepted word's descriptor carries the raw fields of the word,
    whatever the used-flags are. *)
Theorem decode_raw_fields (w pc uuid : Z) (i : Instr) :
  decode w pc uuid = Ok (Some i) ->
  getRd i = bits w 11 7
  /\ getRs1 i = bits w 19 15
  /\ getRs2 i = bits w 24 20
  /\ getFunc3 i = bits w 14 12
  /\ getFunc7 i = bits w 31 25.
Proof.
  intros Hdec.
  destruct (decode_raw_fields_of _ _ _ _ Hdec) as (-> & -> & -> & -> & ->).
  rewrite field_rd_bits, field_rs1_bits, field_rs2_bits, field_func3_bits, field_func7_bits.
  repeat split.
Qed.

(** A store (SW x5, 8(x2): rd field = 8) keeps its rd field although
    [use_rd] is clear. *)
Lemma decode_raw_fields_witness :
  exists i, decode 0x00512423 0 0 = Ok (Some i)
            /\ use_rd (getExeFlags i) = false
            /\ getRd i = bits 0x00512423 11 7 /\ getRd i = 8.
Proof.
  eexists. split; [ reflexivity | ].
  split; [ reflexivity | ].
  split; [ | reflexivity ].
  apply (decode_raw_fields 0x00512423 0 0 _ eq_refl).
Defined.

(** The ALU micro-op of an R or I word is what [decode_alu] selects. *)
Lemma decode_alu_of_instr w pc uuid i :
  decode w pc uuid = Ok (Some i) ->
  getOpcode i = Opcode.R \/ getOpcode i = Opcode.I ->
  decode_alu (getOpcode i) (getFunc3 i) (getFunc7 i) = Ok (getAluOp i).
Proof.
  intros Hdec Hop.
  destruct (decode_Some_inv _ _ _ _ Hdec)
    as (op & ty & fl & imm & a & b & fl' & _ & _ & _ & Hdop & ->).
  simpl in *. destruct Hop as [-> | ->]; unfold decode_op in Hdop;
    destruct (decode_alu _ _ _); simpl in Hdop; congruence.
Qed.

(** C4 (as the code has it): for func3 = 0 the micro-op is SUB exactly
    when the word is R-type and func7 is nonzero, and ADD otherwise; for
    func3 = 5 it is SRL when func7 is zero and SRA when bit 5 of func7 is
    set. *)
Theorem decode_alu_select (w pc uuid : Z) (i : Instr) :
  decode w pc uuid = Ok (Some i) ->
  getOpcode i = Opcode.R \/ getOpcode i = Opcode.I ->
  (getFunc3 i = 0 ->
     (getAluOp i = AluOp.SUB <-> getOpcode i = Opcode.R /\ getFunc7 i <> 0)
     /\ (getAluOp i <> AluOp.SUB -> getAluOp i = AluOp.ADD))
  /\ (getFunc3 i = 5 ->
     (getFunc7 i = 0 -> getAluOp i = AluOp.SRL)
     /\ (Z.testbit (getFunc7 i) 5 = true -> getAluOp i = AluOp.SRA)).
Proof.
  intros Hdec Hop. pose proof (decode_alu_of_instr _ _ _ _ Hdec Hop) as Halu.
  split; intros Hf3; rewrite Hf3 in Halu; unfold decode_alu in Halu.
  - destruct (Z.eqb_spec (getFunc7 i) 0) as [Hz | Hnz].
    + rewrite andb_false_r in Halu. inversion Halu as [Ha].
      split; [ split | ]; [ discriminate | intros [_ Hne]; contradiction | reflexivity ].
    + destruct Hop as [Hop | Hop]; rewrite Hop in Halu |- *; simpl in Halu;
        inversion Halu as [Ha]; split;
        first [ split; [ intros _; split; [ reflexivity | assumption ] | reflexivity ]
              | split; [ discriminate | intros [Habs _]; discriminate ]
              | intros Habs; contradiction
              | reflexivity ].
  - destruct (Z.eqb_spec (getFunc7 i) 0) as [Hz | Hnz]; simpl in Halu;
      inversion Halu as [Ha]; split;
      first [ reflexivity
            | intros Hbit; rewrite Hz in Hbit; discriminate
            | intros Habs; contradiction ].
Qed.

Lemma decode_alu_select_witness :
  exists i, decode 0x40515133 0 0 = Ok (Some i)
            /\ getFunc3 i = 5 /\ getAluOp i = AluOp.SRA.
Proof.
  eexists. split; [ reflexivity | ]. split; [ reflexivity | ].
  apply (decode_alu_select 0x40515133 0 0 _ eq_refl (or_introl eq_refl)); reflexivity.
Defined.

(** C4, counterexample: with func7 = 1 (bit 5 clear) an R word of func3 = 0
    decodes to SUB and one of func3 = 5 to SRA; the words 0x00000033 and
    0x02000033 differ in bit 0 of func7 only and decode to ADD and SUB. *)
Lemma decode_alu_not_bit5 :
  exists i j k,
    decode 0x02000033 0 0 = Ok (Some i)
    /\ getOpcode i = Opcode.R /\ getFunc3 i = 0
    /\ Z.testbit (getFunc7 i) 5 = false /\ getAluOp i = AluOp.SUB
    /\ decode 0x02005033 0 0 = Ok (Some j)
    /\ getOpcode j = Opcode.R /\ getFunc3 j = 5
    /\ Z.testbit (getFunc7 j) 5 = false /\ getAluOp j = AluOp.SRA
    /\ decode 0x00000033 0 0 = Ok (Some k)
    /\ getFunc3 k = 0 /\ getAluOp k = AluOp.ADD
    /\ Z.land (getFunc7 i) 0x20 = Z.land (getFunc7 k) 0x20.
Proof. do 3 eexists. repeat split; reflexivity. Qed.

(** The opcode-decoding block leaves [use_rd] as it finds it. *)
Lemma decode_op_keeps_use_rd op f3 f7 imm g alu_op br_op fl' :
  0 <= f3 < 8 ->
  decode_op op f3 f7 imm g = Ok (alu_op, br_op, fl') ->
  use_rd fl' = use_rd g.
Proof.
  intros Hf3 Hdop.
  destruct op; unfold decode_op, decode_alu in Hdop;
    split_func3 Hf3; cbn [bind Z.eqb Pos.eqb] in Hdop;
    repeat match type of Hdop with
           | context [if ?c then _ else _] => destruct c; cbn [bind] in Hdop
           end;
    first [ discriminate Hdop | inversion Hdop; reflexivity ].
Qed.

(** The x0 rule of [decode]: a word whose rd field is 0 never has
    [use_rd] set. *)
Lemma decode_rd0_clears_use_rd w pc uuid i :
  decode w pc uuid = Ok (Some i) ->
  use_rd (getExeFlags i) = true -> getRd i <> 0.
Proof.
  intros Hdec.
  destruct (decode_Some_inv _ _ _ _ Hdec)
    as (op & ty & fl & imm & a & b & fl' & _ & _ & _ & Hdop & ->).
  simpl. intros Huse Hrd. rewrite Hrd in Hdop.
  apply decode_op_keeps_use_rd in Hdop; [ | apply field_func3_range ].
  rewrite Hdop in Huse. unfold prevent_x0 in Huse.
  destruct (use_rd fl) eqn:E; simpl in Huse; congruence.
Qed.

(** ** The B-type immediate: code against spec *)

Section BImmediate.
Variable w : Z.

Lemma rd_low_bit : Z.land (field_rd w) 0x1 = bit w 7.
  Proof.
    rewrite field_rd_bits. unfold bit, bits.
    rewrite <- Z.land_assoc. reflexivity.
  Qed.

Lemma rd_high_bits : Z.shiftr (field_rd w) 1 = bits w 11 8.
  Proof.
    rewrite field_rd_bits. unfold bits.
    rewrite Z.shiftr_land, Z.shiftr_shiftr by lia. reflexivity.
  Qed.

Lemma func7_low_bits : Z.land (field_func7 w) 0x3f = bits w 30 25.
  Proof.
    rewrite field_func7_bits. unfold bits.
    rewrite <- Z.land_assoc. reflexivity.
  Qed.

Lemma func7_high_bit : Z.shiftr (field_func7 w) 6 = bit w 31.
  Proof.
    rewrite field_func7_bits. unfold bit, bits.
    rewrite Z.shiftr_land, Z.shiftr_shiftr by lia. reflexivity.
  Qed.

Lemma B_imm_code_spec : B_imm_code (field_rd w) (field_func7 w) = B_imm_spec w.
  Proof.
    unfold B_imm_code, B_imm_spec.
    rewrite rd_low_bit, rd_high_bits, func7_low_bits, func7_high_bit.
    f_equal.
    rewrite (Z.lor_comm (Z.shiftl (bit w 7) 11)).
    rewrite <- !Z.lor_assoc. f_equal. apply Z.lor_comm.
  Qed.

Lemma B_imm_spec_bit0 : Z.testbit (B_imm_spec w) 0 = false.
  Proof.
    unfold B_imm_spec.
    rewrite !Z.lor_spec, !Z.shiftl_spec_low by lia. reflexivity.
  Qed.
End BImmediate.

(** [sext] keeps the bits below the sign position. *)
Lemma sext_low_bits (v n k : Z) :
  0 <= k < n -> n <= 32 -> Z.testbit (sext v n) k = Z.testbit v k.
Proof.
  intros Hk Hn. unfold sext.
  change (Z.shiftl 1 n - 1) with (Z.pred (Z.shiftl 1 n)).
  fold (Z.ones n).
  destruct (Z.testbit v (n - 1)).
  - unfold wrap32. rewrite Z.mod_pow2_bits_low by lia.
    rewrite Z.lor_spec, Z.lnot_spec, Z.ones_spec_low by lia.
    apply orb_false_r.
  - rewrite Z.land_spec, Z.ones_spec_low by lia. apply andb_true_r.
Qed.

(** [sext] against two's complement: on an [n]-bit value it is the 32-bit
    pattern of the value read as a signed [n]-bit number. *)
Lemma sext_value (v n : Z) :
  0 < n <= 32 -> 0 <= v < 2 ^ n ->
  sext v n = if v <? 2 ^ (n - 1) then v else v + (2 ^ 32 - 2 ^ n).
Proof.
  intros Hn Hv. unfold sext.
  change (Z.shiftl 1 n - 1) with (Z.pred (Z.shiftl 1 n)). fold (Z.ones n).
  assert (Hpow : 2 ^ n = 2 * 2 ^ (n - 1)).
  { rewrite <- Z.pow_succ_r by lia. f_equal. lia. }
  assert (Hpos : 0 < 2 ^ (n - 1)) by (apply Z.pow_pos_nonneg; lia).
  assert (Hle : 2 ^ n <= 2 ^ 32) by (apply Z.pow_le_mono_r; lia).
  destruct (Z.testbit v (n - 1)) eqn:Hbit.
  - apply Z.testbit_true in Hbit; [ | lia ].
    assert (Hq : v / 2 ^ (n - 1) = 1).
    { assert (0 <= v / 2 ^ (n - 1) < 2).
      { split; [ apply Z.div_pos; lia | apply Z.div_lt_upper_bound; lia ]. }
      rewrite Z.mod_small in Hbit by lia. exact Hbit. }
    assert (Hge : 2 ^ (n - 1) <= v).
    { destruct (Z.lt_ge_cases v (2 ^ (n - 1))) as [Hlt | Hge]; [ | exact Hge ].
      rewrite Z.div_small in Hq by lia. discriminate Hq. }
    destruct (Z.ltb_spec v (2 ^ (n - 1))) as [Hlt | _]; [ lia | ].
    assert (Hdisj : Z.land v (Z.lnot (Z.ones n)) = 0).
    { apply Z.bits_inj'. intros k Hk. rewrite Z.land_spec, Z.lnot_spec, Z.bits_0 by lia.
      destruct (Z.lt_ge_cases k n) as [Hlow | Hhigh].
      - rewrite Z.ones_spec_low by lia. apply andb_false_r.
      - rewrite <- (Z.mod_small v (2 ^ n)) by lia.
        rewrite Z.mod_pow2_bits_high by lia. reflexivity. }
    rewrite <- (Z.lxor_lor _ _ Hdisj), <- (Z.add_nocarry_lxor _ _ Hdisj).
    assert (Hlnot : Z.lnot (Z.ones n) = - 2 ^ n).
    { unfold Z.lnot. rewrite Z.ones_equiv. lia. }
    rewrite Hlnot. unfold wrap32.
    rewrite <- (Z_mod_plus_full (v + - 2 ^ n) 1 (2 ^ 32)).
    rewrite Z.mod_small by lia. lia.
  - apply Z.testbit_false in Hbit; [ | lia ].
    assert (Hlt : v < 2 ^ (n - 1)).
    { destruct (Z.lt_ge_cases v (2 ^ (n - 1))) as [Hlt | Hge]; [ exact Hlt | ].
      assert (Hq : v / 2 ^ (n - 1) = 1).
      { apply Z.le_antisymm.
        - apply Z.lt_succ_r. apply Z.div_lt_upper_bound; lia.
        - apply Z.div_le_lower_bound; lia. }
      rewrite Hq in Hbit. discriminate Hbit. }
    destruct (Z.ltb_spec v (2 ^ (n - 1))) as [_ | Hge]; [ | lia ].
    rewrite Z.land_ones by lia. apply Z.mod_small. lia.
Qed.

(** The spec's 13-bit value is a 13-bit value. *)
Lemma B_imm_spec_range (w : Z) : 0 <= B_imm_spec w < 2 ^ 13.
Proof.
  assert (Hbits : forall k, 13 <= k -> Z.testbit (B_imm_spec w) k = false).
  { intros k Hk. unfold B_imm_spec, bit, bits.
    rewrite !Z.lor_spec, !Z.shiftl_spec, !Z.land_spec by lia.
    rewrite !Z.ones_spec_high by lia.
    rewrite !andb_false_r. reflexivity. }
  assert (Hnonneg : 0 <= B_imm_spec w).
  { unfold B_imm_spec, bit, bits.
    repeat (apply Z.lor_nonneg; split);
      apply Z.shiftl_nonneg; apply Z.land_nonneg; right; rewrite Z.ones_equiv; simpl; lia. }
  split; [ exact Hnonneg | ].
  destruct (Z.eq_dec (B_imm_spec w) 0) as [-> | Hnz]; [ reflexivity | ].
  apply Z.log2_lt_pow2; [ lia | ].
  destruct (Z.lt_ge_cases (Z.log2 (B_imm_spec w)) 13) as [Hlt | Hge]; [ exact Hlt | ].
  specialize (Hbits (Z.log2 (B_imm_spec w)) Hge).
  rewrite Z.bit_log2 in Hbits by lia. discriminate Hbits.
Qed.

(** C7: on every word of opcode B the type-decoding block forms, and every
    decoded branch carries, the spec's 13-bit value sign-extended from 13
    bits to 32 (the 32-bit pattern of the value read as a signed 13-bit
    number); bit 0 of that immediate is zero. *)
Theorem decode_B_imm (w pc uuid : Z) :
  Opcode.of_bits (field_opcode w) = Some Opcode.B ->
  (exists fl, decode_type InstType.B Opcode.B w (field_func3 w) (field_func7 w)
                          (field_rd w) (field_rs2 w)
              = Ok (fl, sext (B_imm_spec w) 13))
  /\ (forall i, decode w pc uuid = Ok (Some i) -> getImm i = sext (B_imm_spec w) 13)
  /\ Z.testbit (sext (B_imm_spec w) 13) 0 = false
  /\ sext (B_imm_spec w) 13
     = (if B_imm_spec w <? 2 ^ 12 then B_imm_spec w else B_imm_spec w + (2 ^ 32 - 2 ^ 13)).
Proof.
  intros Hop.
  assert (Hty : exists fl, decode_type InstType.B Opcode.B w (field_func3 w) (field_func7 w)
                                       (field_rd w) (field_rs2 w)
                           = Ok (fl, sext (B_imm_spec w) 13)).
  { unfold decode_type. fold (B_imm_code (field_rd w) (field_func7 w)).
    rewrite B_imm_code_spec. eexists. reflexivity. }
  split; [ exact Hty | ]. split; [ | split ].
  - intros i Hdec.
    destruct (decode_Some_inv _ _ _ _ Hdec)
      as (op & ty & fl & imm & a & b & fl' & Hop' & Hfind & Hdty & _ & ->).
    rewrite Hop in Hop'. injection Hop' as <-. injection Hfind as <-.
    destruct Hty as [fl0 Hty]. rewrite Hty in Hdty. injection Hdty as _ <-.
    reflexivity.
  - rewrite sext_low_bits by lia. apply B_imm_spec_bit0.
  - apply (sext_value (B_imm_spec w) 13); [ lia | apply B_imm_spec_range ].
Qed.

(** BEQ x1, x2, -4 (0xfe208ee3): the immediate is the 32-bit pattern of -4. *)
Lemma decode_B_imm_witness :
  exists i, decode 0xfe208ee3 0 0 = Ok (Some i)
            /\ getImm i = sext (B_imm_spec 0xfe208ee3) 13
            /\ getImm i = 0xfffffffc.
Proof.
  eexists. split; [ reflexivity | ].
  destruct (decode_B_imm 0xfe208ee3 0 0 eq_refl) as (_ & Himm & _).
  split; [ apply Himm; reflexivity | reflexivity ].
Defined.

(** * Properties of the core *)

(** ** The model runs: scenario 1 of the spec *)

Example scenario_addi :
  match run never_locked [[(0x00500093, 0, 1)]; []; []; []; []; []] scenario_core with
  | Ok c => reg_file_ c !! 1%nat = Some 5 /\ perf_stats_instrs c = 1 /\ RAT_ c = ∅
  | Fault _ => False
  end.
Proof. vm_compute. repeat split. Qed.

Section CoreProperties.

Context {FU : Type} `{FunctionalUnit FU}.

(** ** The issue stage: stalls *)

(** C9: when the issue queue is empty, or the reservation stations are
    full, or the reorder buffer is full, the issue step returns the core
    state it was given: nothing is allocated, set, issued, written or
    popped. *)
Theorem issue_stall_unchanged (c : Core FU) :
  issue_queue_ c = [] \/ RS.full (RS_ c) = true \/ ROB.full (ROB_ c) = true ->
  issue c = Ok c.
Proof.
  intros Hstall. unfold issue.
  destruct (issue_queue_ c) as [ | instr queue_rest ]; [ reflexivity | ].
  destruct Hstall as [Hq | [Hrs | Hrob]].
  - discriminate Hq.
  - rewrite Hrs. reflexivity.
  - rewrite Hrob. destruct (RS.full (RS_ c)); reflexivity.
Qed.

(** An issue that does not stall pops the queue, so the stall cases are the
    only ones in which the state can come back unchanged. *)
Lemma issue_pops (c c' : Core FU) instr queue_rest :
  issue_queue_ c = instr :: queue_rest ->
  RS.full (RS_ c) = false -> ROB.full (ROB_ c) = false ->
  issue c = Ok c' ->
  issue_queue_ c' = queue_rest.
Proof.
  intros Hq Hrs Hrob. unfold issue. rewrite Hq, Hrs, Hrob.
  destruct (read_operand c _ _) as [[d1 t1] | ]; [ | discriminate ]. simpl.
  destruct (read_operand c _ _) as [[d2 t2] | ]; [ | discriminate ]. simpl.
  destruct (RS.issue _ _ _ _ _ _ _) as [[k rs] | ]; [ | discriminate ]. simpl.
  intros [= <-]. reflexivity.
Qed.

End CoreProperties.

Lemma issue_stall_unchanged_witness :
  RS.full (RS_ stalled_core) = true /\ issue stalled_core = Ok stalled_core.
Proof.
  split; [ reflexivity | ].
  apply (issue_stall_unchanged stalled_core). right. left. reflexivity.
Defined.

(** ** The reservation stations *)

(** The slot [RS.issue] takes is a slot of the pool. *)
Lemma RS_free_slot_range (rs : RS.t) (base k : nat) :
  RS.free_slot base rs = Some k -> (base <= k < base + length rs)%nat.
Proof.
  revert base. induction rs as [ | e rest IH ]; intros base Hf; simpl in Hf; [ discriminate | ].
  destruct (RS.valid e).
  - apply IH in Hf. simpl. lia.
  - injection Hf as <-. simpl. lia.
Qed.

(** The slot [RS.issue] takes is not valid. *)
Lemma RS_free_slot_invalid (rs : RS.t) (base k : nat) (e : RS.entry_t) :
  RS.free_slot base rs = Some k -> rs !! (k - base)%nat = Some e -> RS.valid e = false.
Proof.
  revert base. induction rs as [ | e0 rest IH ]; intros base Hf Hl; simpl in Hf; [ discriminate | ].
  destruct (RS.valid e0) eqn:Hv.
  - pose proof (RS_free_slot_range _ _ _ Hf) as Hr.
    apply (IH (S base) Hf).
    replace (k - base)%nat with (S (k - S base)) in Hl by lia. exact Hl.
  - injection Hf as <-. rewrite Nat.sub_diag in Hl. simpl in Hl. congruence.
Qed.

(** A pool that is not full has a free slot. *)
Lemma RS_free_slot_not_full (rs : RS.t) (base : nat) :
  RS.full rs = false -> exists k, RS.free_slot base rs = Some k.
Proof.
  revert base. induction rs as [ | e rest IH ]; intros base Hfull; simpl in *; [ discriminate | ].
  destruct (RS.valid e); simpl in Hfull; eauto.
Qed.

(** ** The issue stage: the RST *)

Section IssueRST.

Context {FU : Type}.

(** What [Core::issue] writes to the RST: the entries at the two operand
    tags of the station it has filled, and nothing at the ROB index. *)
Lemma issue_RST_written (c c' : Core FU) instr queue_rest :
  issue_queue_ c = instr :: queue_rest ->
  RS.full (RS_ c) = false -> ROB.full (ROB_ c) = false ->
  issue c = Ok c' ->
  exists rs_index e,
    RS_ c' !! Z.to_nat rs_index = Some e
    /\ 0 <= rs_index
    /\ RS.rob_index e = Z.of_nat (ROB.tail (ROB_ c))
    /\ RST_ c' = <[RS.rs2_tag e := rs_index]> (<[RS.rs1_tag e := rs_index]> (RST_ c)).
Proof.
  intros Hq Hrs Hrob. unfold issue. rewrite Hq, Hrs, Hrob.
  destruct (read_operand c _ _) as [[d1 t1] | ]; [ | discriminate ]. simpl.
  destruct (read_operand c _ _) as [[d2 t2] | ]; [ | discriminate ]. simpl.
  unfold RS.issue.
  destruct (RS.free_slot 0 (RS_ c)) as [k | ] eqn:Hfree; [ | discriminate ]. simpl.
  intros [= <-]. simpl.
  assert (Hk : (k < length (RS_ c))%nat).
  { apply RS_free_slot_range in Hfree. lia. }
  eexists (Z.of_nat k), _. rewrite Nat2Z.id.
  split; [ apply list_lookup_insert_eq; exact Hk | ].
  split; [ lia | ]. split; reflexivity.
Qed.

End IssueRST.

(** C3, on the code: issuing ADDI x1,x0,5 from the reset state puts the
    instruction in reservation station 0 with ROB entry 0; the RST then has
    no entry at the ROB index 0, and has the entry [-1 -> 0] at the tag of
    the ready operands. *)
Theorem issue_RST_at_tags_not_rob_index :
  exists c1 c2 e,
    deliver [(0x00500093, 0, 1)] scenario_core = Ok c1
    /\ issue c1 = Ok c2
    /\ RS_ c2 !! 0%nat = Some e
    /\ RS.valid e = true /\ RS.rob_index e = 0
    /\ RS.rs1_tag e = -1 /\ RS.rs2_tag e = -1
    /\ RST_ c2 !! 0 = None
    /\ RST_ c2 !! (-1) = Some 0.
Proof.
  do 3 eexists.
  split; [ vm_compute; reflexivity | ].
  split; [ vm_compute; reflexivity | ].
  split; [ reflexivity | ].
  repeat split; vm_compute; reflexivity.
Qed.

(** ** The execute stage: publishing on the CDB *)

Section Publish.

Context {FU : Type} `{FunctionalUnit FU}.

(** With a full CDB, a unit that reports [done] makes the loop fail. *)
Lemma publish_done_full (fus : list FU) (d : cdb_data_t) :
  existsb fu_done fus = true ->
  publish_done fus (Some d) = Fault AssertFail.
Proof.
  induction fus as [ | fu rest IH ]; simpl; [ discriminate | ].
  destruct (fu_done fu); simpl; [ reflexivity | ].
  intros Hrest. rewrite (IH Hrest). reflexivity.
Qed.

(** When the loop returns, it has cleared every unit that reported [done],
    not only the first. *)
Lemma publish_done_clears_all (fus fus' : list FU) (cdb cdb' : CDB.t) :
  publish_done fus cdb = Ok (fus', cdb') ->
  fus' = map (fun fu => if fu_done fu then fu_clear fu else fu) fus.
Proof.
  revert fus' cdb cdb'. induction fus as [ | fu rest IH ]; intros fus' cdb cdb'; simpl.
  - intros [= <- <-]. reflexivity.
  - destruct (fu_done fu).
    + destruct (CDB.push _ cdb) as [cdb1 | ]; simpl; [ | discriminate ].
      destruct (publish_done rest cdb1) as [[rest1 cdb2] | ] eqn:Hrest; simpl; [ | discriminate ].
      intros [= <- <-]. f_equal. eapply IH, Hrest.
    + destruct (publish_done rest cdb) as [[rest1 cdb1] | ] eqn:Hrest; simpl; [ | discriminate ].
      intros [= <- <-]. f_equal. eapply IH, Hrest.
Qed.

(** Two units that report [done] make the loop push twice: the second push
    meets the value of the first. *)
Lemma publish_done_two (fu1 fu2 : FU) (pre mid post : list FU) (cdb : CDB.t) :
  fu_done fu1 = true -> fu_done fu2 = true ->
  publish_done (pre ++ fu1 :: mid ++ fu2 :: post) cdb = Fault AssertFail.
Proof.
  intros H1 H2. revert cdb. induction pre as [ | fu pre IH ]; intros cdb; simpl.
  - rewrite H1. destruct cdb as [d | ]; simpl; [ reflexivity | ].
    rewrite publish_done_full; [ reflexivity | ].
    rewrite existsb_app. simpl. rewrite H2. apply orb_true_r.
  - destruct (fu_done fu).
    + destruct cdb as [d | ]; simpl; [ reflexivity | ].
      rewrite publish_done_full; [ reflexivity | ].
      rewrite existsb_app. simpl. rewrite H1. apply orb_true_r.
    + rewrite IH. reflexivity.
Qed.

End Publish.

(** C2, on the code: with two units done in one cycle and an empty CDB, the
    loop does not stop after the first: it pushes the second output too
    (on the CDB that holds the first), so no state with only the first
    published and the second unit left done is produced.  The program
    [collision_program] reaches this in its sixth cycle from reset. *)
Theorem execute_publishes_every_done_unit :
  publish_done two_done None = Fault AssertFail
  /\ publish_done (take 1 two_done) None
     = Ok ([latch_idle], Some (mkCdbData 1 2 2))
  /\ (exists c5, run never_locked [collision_program; []; []; []; []] scenario_core = Ok c5
                 /\ map fu_done (map fu_execute (FUs_ c5)) = [true; true; false; false]
                 /\ CDB_ c5 = None
                 /\ execute never_locked c5 = Fault AssertFail)
  /\ run never_locked [collision_program; []; []; []; []; []] scenario_core
     = Fault AssertFail.
Proof.
  split; [ reflexivity | ].
  split; [ reflexivity | ].
  split; [ | vm_compute; reflexivity ].
  eexists. split; [ vm_compute; reflexivity | ].
  repeat split; vm_compute; reflexivity.
Qed.

(** ** Vector access *)

Lemma vec_at_Ok {A : Type} (v : list A) (i : Z) (a : A) :
  vec_at v i = Ok a <-> 0 <= i /\ v !! Z.to_nat i = Some a.
Proof.
  unfold vec_at. destruct (Z.ltb_spec i 0) as [Hneg | Hpos].
  - split; [ discriminate | lia ].
  - destruct (v !! Z.to_nat i) as [a0 | ]; split;
      first [ intros [= ->]; auto | intros [_ [= ->]]; reflexivity
            | discriminate | intros [_ Hn]; discriminate Hn ].
Qed.

Lemma vec_at_in_range {A : Type} (v : list A) (i : Z) :
  0 <= i < Z.of_nat (length v) -> exists a, vec_at v i = Ok a.
Proof.
  intros Hi. destruct (lookup_lt_is_Some_2 v (Z.to_nat i)) as [a Ha]; [ lia | ].
  exists a. apply vec_at_Ok. split; [ lia | exact Ha ].
Qed.

Lemma vec_set_Ok {A : Type} (v v' : list A) (i : Z) (a : A) :
  vec_set v i a = Ok v' <->
  0 <= i < Z.of_nat (length v) /\ v' = <[Z.to_nat i := a]> v.
Proof.
  unfold vec_set.
  destruct (Z.ltb_spec i 0) as [Hneg | Hpos]; simpl.
  - split; [ discriminate | lia ].
  - destruct (Z.leb_spec (Z.of_nat (length v)) i) as [Hge | Hlt].
    + split; [ discriminate | lia ].
    + split; [ intros [= <-]; split; [ lia | reflexivity ] | intros [_ ->]; reflexivity ].
Qed.

Lemma vec_at_set_eq {A : Type} (v v' : list A) (i : Z) (a : A) :
  vec_set v i a = Ok v' -> vec_at v' i = Ok a.
Proof.
  intros Hset. apply vec_set_Ok in Hset as [Hi ->].
  apply vec_at_Ok. split; [ lia | ]. apply list_lookup_insert_eq. lia.
Qed.

Lemma vec_at_set_ne {A : Type} (v v' : list A) (i j : Z) (a : A) :
  vec_set v i a = Ok v' -> 0 <= j -> i <> j -> vec_at v' j = vec_at v j.
Proof.
  intros Hset Hj Hne. apply vec_set_Ok in Hset as [Hi ->].
  unfold vec_at. rewrite list_lookup_insert_ne by lia. reflexivity.
Qed.

(** ** The commit stage *)

Section Commit.

Context {FU : Type}.

(** [commit] on a ready head whose instruction is known. *)
Lemma commit_ready_head (c : Core FU) (rob_head : ROB.entry_t) (instr : Instr) :
  ROB.empty (ROB_ c) = false ->
  ROB.get_entry (ROB_ c) (ROB.head_index (ROB_ c)) = Ok rob_head ->
  ROB.ready rob_head = true ->
  ROB.instr rob_head = Some instr ->
  commit c =
    (do (regs, rat) <- commit_write c (ROB.head_index (ROB_ c)) rob_head instr;
     if perf_stats_instrs c <=? fetched_instrs_ c
     then Ok (mkCore (issue_queue_ c) (RS_ c) (ROB.pop (ROB_ c)) rat (RST_ c) regs
                     (CDB_ c) (FUs_ c) ((perf_stats_instrs c + 1) mod 2 ^ 64)
                     (fetched_instrs_ c)
                     (if is_exit (getExeFlags instr) then true else exited_ c))
     else Fault AssertFail).
Proof.
  intros Hne Hhead Hready Hinstr. unfold commit.
  rewrite Hne, Hhead. simpl. rewrite Hready, Hinstr. reflexivity.
Qed.

(** C5: a commit whose ROB head is ready and has [use_rd] writes the
    result to [reg_file[rd]]; it clears [RAT[rd]] when that still equals
    the head's ROB index and otherwise leaves the RAT as it is, so the
    mapping a later writer has set survives; the mappings of the other
    registers are never touched.  With [rd] inside the register file and
    the retired count within the fetched count, the commit returns. *)
Theorem commit_writes_rd_and_guards_RAT
    (c : Core FU) (rob_head : ROB.entry_t) (instr : Instr) :
  ROB.empty (ROB_ c) = false ->
  ROB.get_entry (ROB_ c) (ROB.head_index (ROB_ c)) = Ok rob_head ->
  ROB.ready rob_head = true ->
  ROB.instr rob_head = Some instr ->
  use_rd (getExeFlags instr) = true ->
  (forall c', commit c = Ok c' ->
     vec_at (reg_file_ c') (getRd instr) = Ok (ROB.result rob_head)
     /\ (RAT_ c !! getRd instr = Some (ROB.head_index (ROB_ c)) ->
         RAT_ c' !! getRd instr = None)
     /\ (RAT_ c !! getRd instr <> Some (ROB.head_index (ROB_ c)) ->
         RAT_ c' = RAT_ c)
     /\ (forall r, r <> getRd instr -> RAT_ c' !! r = RAT_ c !! r))
  /\ (0 <= getRd instr < Z.of_nat (length (reg_file_ c)) ->
      perf_stats_instrs c <= fetched_instrs_ c ->
      exists c', commit c = Ok c').
Proof.
  intros Hne Hhead Hready Hinstr Huse.
  rewrite (commit_ready_head c rob_head instr Hne Hhead Hready Hinstr).
  unfold commit_write. rewrite Huse. split.
  - intros c'.
    destruct (vec_set (reg_file_ c) (getRd instr) (ROB.result rob_head))
      as [regs | ] eqn:Hset; simpl; [ | discriminate ].
    destruct (Z.leb_spec (perf_stats_instrs c) (fetched_instrs_ c)) as [Hle | Hgt].
    + case_bool_decide as Heq; simpl; intros [= <-]; simpl;
        (split; [ apply (vec_at_set_eq _ _ _ _ Hset) | ]).
      * split; [ intros _; apply lookup_delete_eq | ].
        split; [ intros Hdiff; contradiction | ].
        intros r Hr. apply lookup_delete_ne. congruence.
      * split; [ intros Hsame; contradiction | ].
        split; [ reflexivity | ]. reflexivity.
    + case_bool_decide; simpl; discriminate.
  - intros Hrd Hperf.
    destruct (vec_set (reg_file_ c) (getRd instr) (ROB.result rob_head))
      as [regs | ] eqn:Hset; simpl.
    + destruct (Z.leb_spec (perf_stats_instrs c) (fetched_instrs_ c)) as [Hle | Hgt]; [ | lia ].
      case_bool_decide; simpl; eauto.
    + unfold vec_set in Hset.
      destruct (Z.ltb_spec (getRd instr) 0); [ lia | ].
      destruct (Z.leb_spec (Z.of_nat (length (reg_file_ c))) (getRd instr)); [ lia | ].
      discriminate Hset.
Qed.

End Commit.

(** Scenario 7 of the spec: the first writer of x1 commits while the RAT
    maps x1 to the second writer (ROB index 1); the register file gets the
    first result and the mapping stays. *)
Lemma commit_writes_rd_and_guards_RAT_witness :
  exists c', commit two_writers_core = Ok c'
             /\ vec_at (reg_file_ c') 1 = Ok 1
             /\ RAT_ c' = RAT_ two_writers_core
             /\ RAT_ c' !! 1 = Some 1.
Proof.
  destruct (commit_writes_rd_and_guards_RAT two_writers_core _ _
              eq_refl eq_refl eq_refl eq_refl eq_refl) as [Hprop Htot].
  assert (Hrd : 0 <= 1 < 32) by lia.
  assert (Hperf : 0 <= 2) by lia.
  destruct (Htot Hrd Hperf) as [c' Hc'].
  exists c'. split; [ exact Hc' | ].
  destruct (Hprop c' Hc') as (Hreg & _ & Hkeep & _).
  split; [ exact Hreg | ].
  assert (HRAT : RAT_ c' = RAT_ two_writers_core).
  { apply Hkeep. vm_compute. discriminate. }
  split; [ exact HRAT | ]. rewrite HRAT. reflexivity.
Defined.

(** ** The issue stage: operands *)

Section IssueOperands.

Context {FU : Type}.

(** The operand block yields what the spec says of a used operand. *)
Lemma read_operand_ok (c : Core FU) (used : bool) (rs data tag : Z) :
  read_operand c used rs = Ok (data, tag) -> operand_ok c used rs data tag.
Proof.
  unfold read_operand, operand_ok. intros Hread ->.
  destruct (RAT_ c !! rs) as [rob_id | ].
  - destruct (ROB.get_entry (ROB_ c) rob_id) as [rob_entry | ]; simpl in Hread;
      [ | discriminate ].
    exists rob_entry. split; [ reflexivity | ].
    destruct (ROB.ready rob_entry); injection Hread as <- <-; auto.
  - destruct (vec_at (reg_file_ c) rs) as [v | ]; simpl in Hread; [ | discriminate ].
    injection Hread as <- <-. auto.
Qed.

(** The operand block returns on a readable operand. *)
Lemma read_operand_total (c : Core FU) (used : bool) (rs : Z) :
  operand_readable c used rs -> exists r, read_operand c used rs = Ok r.
Proof.
  unfold read_operand, operand_readable. destruct used; [ | eauto ].
  intros Hread. specialize (Hread eq_refl).
  destruct (RAT_ c !! rs) as [rob_id | ].
  - destruct (vec_at_in_range (ROB.store (ROB_ c)) rob_id Hread) as [e He].
    unfold ROB.get_entry. rewrite He. simpl. destruct (ROB.ready e); eauto.
  - destruct (vec_at_in_range (reg_file_ c) rs Hread) as [v Hv].
    rewrite Hv. simpl. eauto.
Qed.

(** C8: an issue that does not stall fills a free reservation station
    with the instruction, and for each of rs1 and rs2 that the instruction
    uses: a register the RAT maps to a ready ROB entry gives that entry's
    result as data with tag -1; one mapped to an entry not ready gives the
    ROB index as tag; an unmapped one gives the register-file value with
    tag -1.  With readable operands the issue returns. *)
Theorem issue_operands (c : Core FU) (instr : Instr) (queue_rest : list Instr) :
  issue_queue_ c = instr :: queue_rest ->
  RS.full (RS_ c) = false ->
  ROB.full (ROB_ c) = false ->
  (forall c', issue c = Ok c' ->
     exists (rs_index : nat) (free e : RS.entry_t),
       RS_ c !! rs_index = Some free /\ RS.valid free = false
       /\ RS_ c' !! rs_index = Some e
       /\ RS.valid e = true /\ RS.running e = false /\ RS.instr e = Some instr
       /\ operand_ok c (use_rs1 (getExeFlags instr)) (getRs1 instr)
                     (RS.rs1_data e) (RS.rs1_tag e)
       /\ operand_ok c (use_rs2 (getExeFlags instr)) (getRs2 instr)
                     (RS.rs2_data e) (RS.rs2_tag e))
  /\ (operand_readable c (use_rs1 (getExeFlags instr)) (getRs1 instr) ->
      operand_readable c (use_rs2 (getExeFlags instr)) (getRs2 instr) ->
      exists c', issue c = Ok c').
Proof.
  intros Hq Hrs Hrob. unfold issue. rewrite Hq, Hrs, Hrob.
  destruct (RS_free_slot_not_full (RS_ c) 0 Hrs) as [k Hfree].
  pose proof (RS_free_slot_range _ _ _ Hfree) as Hk.
  unfold RS.issue. rewrite Hfree. split.
  - intros c'.
    destruct (read_operand c _ (getRs1 instr)) as [[d1 t1] | ] eqn:H1; [ | discriminate ].
    simpl.
    destruct (read_operand c _ (getRs2 instr)) as [[d2 t2] | ] eqn:H2; [ | discriminate ].
    simpl. intros [= <-]. simpl.
    destruct (lookup_lt_is_Some_2 (RS_ c) k) as [free Hlook]; [ lia | ].
    exists k, free, (RS.mkEntry true false (Some instr)
                                (Z.of_nat (ROB.tail (ROB_ c))) t1 t2 d1 d2).
    split; [ exact Hlook | ].
    split; [ apply (RS_free_slot_invalid _ _ _ _ Hfree); rewrite Nat.sub_0_r; exact Hlook | ].
    split; [ apply list_lookup_insert_eq; lia | ].
    simpl. repeat split; auto using read_operand_ok.
  - intros Hr1 Hr2.
    destruct (read_operand_total c _ _ Hr1) as [[d1 t1] ->]. simpl.
    destruct (read_operand_total c _ _ Hr2) as [[d2 t2] ->]. simpl.
    eauto.
Qed.

End IssueOperands.

(** The JALR of [collision_program] reads x1 while the RAT maps x1 to the
    ROB entry 0, not ready: its station gets the tag 0. *)
Lemma issue_operands_witness :
  exists c' (rs_index : nat) e,
    issue pending_operand_core = Ok c'
    /\ RS_ c' !! rs_index = Some e
    /\ RS.valid e = true
    /\ operand_ok pending_operand_core true 1 (RS.rs1_data e) (RS.rs1_tag e).
Proof.
  destruct (issue_operands pending_operand_core _ _ eq_refl eq_refl eq_refl)
    as [Hprop Htot].
  destruct Htot as [c' Hc'].
  - intros _. vm_compute. split; [ discriminate | reflexivity ].
  - intros Hused. vm_compute in Hused. discriminate Hused.
  - destruct (Hprop c' Hc') as (k & free & e & _ & _ & He & Hvalid & _ & _ & Hop1 & _).
    exists c', k, e. repeat split; assumption.
Defined.

Example issue_pending_tag :
  match issue pending_operand_core with
  | Ok c' => (RS.rs1_tag <$> RS_ c' !! 1%nat, RS.rs2_tag <$> RS_ c' !! 1%nat)
  | Fault _ => (None, None)
  end = (Some 0, Some (-1)).
Proof. vm_compute. reflexivity. Qed.

(** ** Register 0 *)

Section RegisterZero.

Context {FU : Type} `{FunctionalUnit FU}.
Variable RS_locked : RS.t -> Z -> bool.

(** What [decode] returns keeps the x0 rule. *)
Lemma decode_x0_ok w pc uuid i : decode w pc uuid = Ok (Some i) -> x0_ok i.
Proof. intros Hdec Huse. eapply decode_rd0_clears_use_rd; eassumption. Qed.

(** A commit of an instruction without [use_rd] leaves the register file
    and the RAT alone. *)
Lemma commit_write_no_rd (c : Core FU) head_index rob_head instr :
  use_rd (getExeFlags instr) = false ->
  commit_write c head_index rob_head instr = Ok (reg_file_ c, RAT_ c).
Proof. intros Huse. unfold commit_write. rewrite Huse. reflexivity. Qed.

(** The register-file write of a commit never lands on register 0 when the
    instruction keeps the x0 rule. *)
Lemma commit_write_x0 (c : Core FU) head_index rob_head instr regs rat :
  x0_ok instr ->
  commit_write c head_index rob_head instr = Ok (regs, rat) ->
  vec_at regs 0 = vec_at (reg_file_ c) 0.
Proof.
  intros Hok. unfold commit_write.
  destruct (use_rd (getExeFlags instr)) eqn:Huse; [ | intros [= <- _]; reflexivity ].
  destruct (vec_set (reg_file_ c) (getRd instr) (ROB.result rob_head))
    as [regs1 | ] eqn:Hset; simpl; [ | discriminate ].
  intros Hres.
  assert (regs = regs1) as -> by (case_bool_decide; congruence).
  apply (vec_at_set_ne _ _ _ _ _ Hset); [ lia | exact (Hok Huse) ].
Qed.

Lemma commit_x0_inv (c c' : Core FU) : x0_inv c -> commit c = Ok c' -> x0_inv c'.
Proof.
  intros (Hreg & Hq & Hrob). unfold commit.
  destruct (ROB.empty (ROB_ c)); [ intros [= <-]; repeat split; assumption | ].
  destruct (ROB.get_entry (ROB_ c) _) as [rob_head | ] eqn:Hhead; simpl; [ | discriminate ].
  destruct (ROB.ready rob_head); [ | intros [= <-]; repeat split; assumption ].
  destruct (ROB.instr rob_head) as [instr | ] eqn:Hinstr; [ | discriminate ].
  assert (Hok : x0_ok instr).
  { apply vec_at_Ok in Hhead as [_ Hlook].
    pose proof (Forall_lookup_1 _ _ _ _ Hrob Hlook) as He.
    unfold x0_entry_ok in He. rewrite Hinstr in He. exact He. }
  destruct (commit_write c _ rob_head instr) as [[regs rat] | ] eqn:Hw; simpl; [ | discriminate ].
  destruct (perf_stats_instrs c <=? fetched_instrs_ c); [ | discriminate ].
  intros [= <-]. unfold x0_inv. simpl.
  rewrite (commit_write_x0 _ _ _ _ _ _ Hok Hw). repeat split; assumption.
Qed.

Lemma ROB_update_x0 (d : cdb_data_t) (r r' : ROB.t) :
  Forall x0_entry_ok (ROB.store r) -> ROB.update d r = Ok r' ->
  Forall x0_entry_ok (ROB.store r').
Proof.
  intros Hall. unfold ROB.update.
  destruct (vec_at (ROB.store r) (cdb_rob_index d)) as [e | ] eqn:He; simpl; [ | discriminate ].
  destruct (vec_set (ROB.store r) _ _) as [st | ] eqn:Hset; simpl; [ | discriminate ].
  intros [= <-]. simpl. apply vec_set_Ok in Hset as [_ ->].
  apply Forall_insert; [ exact Hall | ].
  apply vec_at_Ok in He as [_ Hlook].
  exact (Forall_lookup_1 _ _ _ _ Hall Hlook).
Qed.

Lemma writeback_x0_inv (c c' : Core FU) : x0_inv c -> writeback c = Ok c' -> x0_inv c'.
Proof.
  intros (Hreg & Hq & Hrob). unfold writeback.
  destruct (CDB_ c) as [cdb_data | ]; [ | intros [= <-]; repeat split; assumption ].
  destruct (RS.release _ _) as [rs1 | ]; simpl; [ | discriminate ].
  destruct (ROB.update cdb_data (ROB_ c)) as [rob | ] eqn:Hupd; simpl; [ | discriminate ].
  intros [= <-]. unfold x0_inv. simpl.
  repeat split; try assumption. eapply ROB_update_x0; eassumption.
Qed.

Lemma execute_x0_inv (c c' : Core FU) :
  x0_inv c -> execute RS_locked c = Ok c' -> x0_inv c'.
Proof.
  intros (Hreg & Hq & Hrob). unfold execute.
  destruct (publish_done _ _) as [[fus1 cdb] | ]; simpl; [ | discriminate ].
  destruct (dispatch_from _ _ _ _ _) as [[rs fus2] | ]; simpl; [ | discriminate ].
  intros [= <-]. repeat split; assumption.
Qed.

Lemma issue_x0_inv (c c' : Core FU) : x0_inv c -> issue c = Ok c' -> x0_inv c'.
Proof.
  intros (Hreg & Hq & Hrob). unfold issue.
  destruct (issue_queue_ c) as [ | instr queue_rest ] eqn:Hqueue;
    [ intros [= <-]; unfold x0_inv; rewrite Hqueue; repeat split; assumption | ].
  destruct (RS.full (RS_ c));
    [ intros [= <-]; unfold x0_inv; rewrite Hqueue; repeat split; assumption | ].
  destruct (ROB.full (ROB_ c));
    [ intros [= <-]; unfold x0_inv; rewrite Hqueue; repeat split; assumption | ].
  destruct (read_operand c _ (getRs1 instr)) as [[d1 t1] | ]; simpl; [ | discriminate ].
  destruct (read_operand c _ (getRs2 instr)) as [[d2 t2] | ]; simpl; [ | discriminate ].
  destruct (RS.issue _ _ _ _ _ _ _) as [[k rs] | ]; simpl; [ | discriminate ].
  intros [= <-]. unfold x0_inv. simpl.
  split; [ assumption | ].
  split; [ exact (Forall_inv_tail Hq) | ].
  apply Forall_insert; [ assumption | ].
  exact (Forall_inv Hq).
Qed.

Lemma deliver_x0_inv (fetched : list (Z * Z * Z)) (c c' : Core FU) :
  x0_inv c -> deliver fetched c = Ok c' -> x0_inv c'.
Proof.
  revert c. induction fetched as [ | [[w pc] uuid] more IH ]; intros c Hinv; simpl.
  - intros [= <-]. exact Hinv.
  - destruct (decode w pc uuid) as [[instr | ] | ] eqn:Hdec; simpl; try discriminate.
    apply IH. destruct Hinv as (Hreg & Hq & Hrob). unfold x0_inv. simpl.
    split; [ assumption | ]. split; [ | assumption ].
    apply Forall_app. split; [ assumption | ].
    constructor; [ | constructor ]. eapply decode_x0_ok, Hdec.
Qed.

Lemma tick_x0_inv (fetched : list (Z * Z * Z)) (c c' : Core FU) :
  x0_inv c -> tick RS_locked fetched c = Ok c' -> x0_inv c'.
Proof.
  intros Hinv. unfold tick.
  destruct (commit c) as [c1 | ] eqn:H1; simpl; [ | discriminate ].
  destruct (writeback c1) as [c2 | ] eqn:H2; simpl; [ | discriminate ].
  destruct (execute RS_locked c2) as [c3 | ] eqn:H3; simpl; [ | discriminate ].
  destruct (issue c3) as [c4 | ] eqn:H4; simpl; [ | discriminate ].
  intros H5.
  eapply deliver_x0_inv; [ | exact H5 ].
  eapply issue_x0_inv; [ | exact H4 ].
  eapply execute_x0_inv; [ | exact H3 ].
  eapply writeback_x0_inv; [ | exact H2 ].
  eapply commit_x0_inv; [ | exact H1 ]. exact Hinv.
Qed.

Lemma run_x0_inv (cycles : list (list (Z * Z * Z))) (c c' : Core FU) :
  x0_inv c -> run RS_locked cycles c = Ok c' -> x0_inv c'.
Proof.
  revert c. induction cycles as [ | fetched more IH ]; intros c Hinv; simpl.
  - intros [= <-]. exact Hinv.
  - destruct (exited_ c); [ intros [= <-]; exact Hinv | ].
    destruct (tick RS_locked fetched c) as [c1 | ] eqn:Htick; simpl; [ | discriminate ].
    apply IH. eapply tick_x0_inv; eassumption.
Qed.

(** The reset state keeps the invariant when its register 0 is zero. *)
Lemma reset_x0_inv (rs_size rob_size : nat) (regs : list Z) (fus : list FU) :
  regs !! 0%nat = Some 0 -> x0_inv (reset rs_size rob_size regs fus).
Proof.
  intros Hreg. unfold x0_inv, reset. simpl.
  split; [ apply vec_at_Ok; split; [ lia | exact Hreg ] | ].
  split; [ constructor | ].
  apply Forall_replicate. exact I.
Qed.

(** C6: a word whose rd field is 0 decodes with [use_rd] clear; a commit
    of an instruction with [use_rd] clear leaves the register file as it
    is; and from a reset state whose register 0 is zero, register 0 reads 0
    after any number of cycles of any program, whatever the functional
    units compute. *)
Theorem x0_never_written
    (rs_size rob_size : nat) (regs : list Z) (fus : list FU)
    (cycles : list (list (Z * Z * Z))) (c' : Core FU) :
  regs !! 0%nat = Some 0 ->
  run RS_locked cycles (reset rs_size rob_size regs fus) = Ok c' ->
  (forall w pc uuid i,
      decode w pc uuid = Ok (Some i) -> bits w 11 7 = 0 ->
      use_rd (getExeFlags i) = false)
  /\ (forall (c c1 : Core FU) rob_head instr,
        ROB.empty (ROB_ c) = false ->
        ROB.get_entry (ROB_ c) (ROB.head_index (ROB_ c)) = Ok rob_head ->
        ROB.instr rob_head = Some instr ->
        use_rd (getExeFlags instr) = false ->
        commit c = Ok c1 -> reg_file_ c1 = reg_file_ c)
  /\ reg_file_ c' !! 0%nat = Some 0.
Proof.
  intros Hreg Hrun. split; [ | split ].
  - intros w pc uuid i Hdec Hrd.
    destruct (use_rd (getExeFlags i)) eqn:Huse; [ | reflexivity ].
    exfalso. apply (decode_rd0_clears_use_rd _ _ _ _ Hdec Huse).
    destruct (decode_raw_fields_of _ _ _ _ Hdec) as [-> _].
    rewrite field_rd_bits. exact Hrd.
  - intros c c1 rob_head instr Hne Hhead Hinstr Huse. unfold commit.
    rewrite Hne, Hhead. simpl.
    destruct (ROB.ready rob_head); [ | intros [= <-]; reflexivity ].
    rewrite Hinstr, (commit_write_no_rd _ _ _ _ Huse). simpl.
    destruct (perf_stats_instrs c <=? fetched_instrs_ c); [ | discriminate ].
    intros [= <-]. reflexivity.
  - pose proof (run_x0_inv _ _ _ (reset_x0_inv rs_size rob_size regs fus Hreg) Hrun)
      as (Hreg' & _ & _).
    apply vec_at_Ok in Hreg' as [_ Hlook]. exact Hlook.
Qed.

End RegisterZero.

(** ADDI x0,x0,5 runs to its commit (one instruction retired) and
    register 0 still reads 0. *)
Lemma x0_never_written_witness :
  run never_locked x0_program scenario_core = Ok x0_program_final
  /\ perf_stats_instrs x0_program_final = 1
  /\ reg_file_ x0_program_final !! 0%nat = Some 0.
Proof.
  assert (Hrun : run never_locked x0_program scenario_core = Ok x0_program_final)
    by (vm_compute; reflexivity).
  split; [ exact Hrun | ]. split; [ reflexivity | ].
  apply (x0_never_written never_locked 16 32 (replicate 32 0)
           [latch_idle; latch_idle; latch_idle; latch_idle]
           x0_program x0_program_final eq_refl Hrun).
Defined.

(** * Further properties of the decoder *)

(** Projections of an explicit descriptor and of explicit flags. *)
Ltac descriptor_simpl :=
  cbn [use_rd use_rs1 use_rs2 use_imm alu_s1_PC alu_s1_inv alu_s1_rs1 alu_s2_imm
       alu_s2_csr is_load is_store is_csr is_exit
       set_use_rd set_use_rs1 set_use_rs2 set_use_imm set_alu_s1_PC set_alu_s1_inv
       set_alu_s1_rs1 set_alu_s2_imm set_alu_s2_csr set_is_load set_is_store
       set_is_csr set_is_exit flags0 decode_fu BrOp.is_none andb orb negb
       getId getPC getOpcode getRd getRs1 getRs2 getImm getFunc3 getFunc7
       getAluOp getBrOp getExeFlags getFUType Z.eqb Pos.eqb] in *.

(** A successful decode, taken apart by opcode and func3: [Hdec] is the
    hypothesis [decode w pc uuid = Ok (Some i)]. *)
Ltac decode_cases_of Hdec w :=
  let op := fresh "op" in let ty := fresh "ty" in let fl := fresh "fl" in
  let imm := fresh "imm" in let aop := fresh "aop" in let bop := fresh "bop" in
  let fl1 := fresh "fl1" in let Hop := fresh "Hop" in let Hty := fresh "Hty" in
  let Hdty := fresh "Hdty" in let Hdop := fresh "Hdop" in let Hf3 := fresh "Hf3" in
  let f3 := fresh "f3" in let Ef3 := fresh "Ef3" in
  destruct (decode_Some_inv _ _ _ _ Hdec)
    as (op & ty & fl & imm & aop & bop & fl1 & Hop & Hty & Hdty & Hdop & ->);
  pose proof (field_func3_range w) as Hf3;
  remember (field_func3 w) as f3 eqn:Ef3;
  destruct op; injection Hty as <-;
  unfold decode_type in Hdty;
  split_func3 Hf3;
  cbn [Z.eqb Pos.eqb orb negb Z.ltb Z.compare Pos.compare Pos.compare_cont] in Hdty;
  injection Hdty as <- <-;
  unfold decode_op, decode_alu in Hdop;
  cbn [bind Z.eqb Pos.eqb orb negb andb Opcode.eqb] in Hdop;
  repeat match type of Hdop with
         | context [if ?c then _ else _] =>
             let E := fresh "E" in destruct c eqn:E; cbn [bind] in Hdop
         end;
  first [ discriminate Hdop | injection Hdop as <- <- <- ];
  unfold prevent_x0 in *;
  destruct (field_rd w =? 0) eqn:Erd;
  descriptor_simpl.

(** Routing to the functional units: loads and stores go to the LSU, CSR
    instructions (SYS with func3 nonzero) to the SFU, branches and jumps to
    the BRU, everything else to the ALU; no decoded instruction is left
    without a unit. *)
Theorem decode_fu_routing (w pc uuid : Z) (i : Instr) :
  decode w pc uuid = Ok (Some i) ->
  getFUType i =
    match getOpcode i with
    | Opcode.L | Opcode.S => FUType.LSU
    | Opcode.SYS => if getFunc3 i =? 0 then FUType.ALU else FUType.SFU
    | Opcode.B | Opcode.JAL | Opcode.JALR => FUType.BRU
    | _ => FUType.ALU
    end.
Proof.
  intros Hdec. decode_cases_of Hdec w; reflexivity.
Qed.

(** The tests of [decode] that a case has settled, used as rewrite rules. *)
Ltac rewrite_tests :=
  repeat match goal with
         | H : _ = true |- _ => rewrite H
         | H : _ = false |- _ => rewrite H
         end.

(** The register-use flags of a decoded instruction, by opcode: rd is used
    by R, I, L, LUI, AUIPC, JAL, JALR and the CSR forms, and only when the
    rd field is not 0; rs1 by R, I, L, JALR, S, B and the CSR register
    forms; rs2 by R, S and B only. *)
Theorem decode_register_flags (w pc uuid : Z) (i : Instr) :
  decode w pc uuid = Ok (Some i) ->
  use_rd (getExeFlags i)
  = negb (getRd i =? 0)
    && match getOpcode i with
       | Opcode.R | Opcode.I | Opcode.L | Opcode.LUI | Opcode.AUIPC
       | Opcode.JAL | Opcode.JALR => true
       | Opcode.SYS => negb (getFunc3 i =? 0)
       | _ => false
       end
  /\ use_rs1 (getExeFlags i)
     = match getOpcode i with
       | Opcode.R | Opcode.I | Opcode.L | Opcode.JALR | Opcode.S | Opcode.B => true
       | Opcode.SYS => negb (getFunc3 i =? 0) && (getFunc3 i <? 5)
       | _ => false
       end
  /\ use_rs2 (getExeFlags i)
     = match getOpcode i with
       | Opcode.R | Opcode.S | Opcode.B => true
       | _ => false
       end.
Proof.
  intros Hdec. decode_cases_of Hdec w; rewrite ?Erd; repeat split; reflexivity.
Qed.

(** The class flags of a decoded instruction: [is_load] is set exactly for
    opcode L, [is_store] for S, [is_csr] (with [alu_s2_csr]) for SYS with
    func3 nonzero, and [is_exit] for SYS with func3 = 0 and immediate 0 or 1
    (ECALL, EBREAK). *)
Theorem decode_class_flags (w pc uuid : Z) (i : Instr) :
  decode w pc uuid = Ok (Some i) ->
  is_load (getExeFlags i) = Opcode.eqb (getOpcode i) Opcode.L
  /\ is_store (getExeFlags i) = Opcode.eqb (getOpcode i) Opcode.S
  /\ is_csr (getExeFlags i)
     = Opcode.eqb (getOpcode i) Opcode.SYS && negb (getFunc3 i =? 0)
  /\ alu_s2_csr (getExeFlags i) = is_csr (getExeFlags i)
  /\ is_exit (getExeFlags i)
     = Opcode.eqb (getOpcode i) Opcode.SYS && (getFunc3 i =? 0)
       && ((getImm i =? 0) || (getImm i =? 1)).
Proof.
  intros Hdec. decode_cases_of Hdec w; cbn [Opcode.eqb andb];
    rewrite_tests; repeat split; reflexivity.
Qed.

(** The branch micro-op: a B word gets the comparison its func3 selects,
    JAL and JALR their own micro-op, and every other instruction NONE; the
    PC is operand 1 ([alu_s1_PC]) exactly for AUIPC, B and JAL. *)
Theorem decode_branch_op (w pc uuid : Z) (i : Instr) :
  decode w pc uuid = Ok (Some i) ->
  getBrOp i
  = match getOpcode i with
    | Opcode.B =>
        match getFunc3 i with
        | 0 => BrOp.BEQ | 1 => BrOp.BNE | 4 => BrOp.BLT
        | 5 => BrOp.BGE | 6 => BrOp.BLTU | _ => BrOp.BGEU
        end
    | Opcode.JAL => BrOp.JAL
    | Opcode.JALR => BrOp.JALR
    | _ => BrOp.NONE
    end
  /\ alu_s1_PC (getExeFlags i)
     = match getOpcode i with
       | Opcode.AUIPC | Opcode.B | Opcode.JAL => true
       | _ => false
       end.
Proof.
  intros Hdec. decode_cases_of Hdec w; split; reflexivity.
Qed.

(** The CSR forms (SYS with func3 nonzero): the micro-op is ADD for func3
    1 and 5, OR for 2 and 6, AND for 3 and 7; operand 1 is inverted exactly
    for 3 and 7; the immediate forms (func3 5, 6, 7) take the rs1 field as a
    literal ([alu_s1_rs1]) and do not read the register rs1. *)
Theorem decode_csr_forms (w pc uuid : Z) (i : Instr) :
  decode w pc uuid = Ok (Some i) ->
  getOpcode i = Opcode.SYS -> getFunc3 i <> 0 ->
  getAluOp i
  = match getFunc3 i with
    | 1 | 5 => AluOp.ADD
    | 2 | 6 => AluOp.OR
    | _ => AluOp.AND
    end
  /\ alu_s1_inv (getExeFlags i) = (getFunc3 i =? 3) || (getFunc3 i =? 7)
  /\ alu_s1_rs1 (getExeFlags i) = (5 <=? getFunc3 i)
  /\ use_rs1 (getExeFlags i) = negb (alu_s1_rs1 (getExeFlags i))
  /\ getFUType i = FUType.SFU.
Proof.
  intros Hdec. decode_cases_of Hdec w; intros Hsys Hf3nz;
    first [ discriminate Hsys | contradiction Hf3nz; reflexivity
          | repeat split; reflexivity ].
Qed.

Lemma decode_csr_forms_witness :
  exists i, decode 0x3002f073 0 0 = Ok (Some i)
            /\ getAluOp i = AluOp.AND
            /\ alu_s1_rs1 (getExeFlags i) = true
            /\ use_rs1 (getExeFlags i) = false.
Proof.
  eexists. split; [ reflexivity | ].
  assert (Hnz : 7 <> 0) by discriminate.
  destruct (decode_csr_forms 0x3002f073 0 0 _ eq_refl eq_refl Hnz)
    as (Ha & _ & Hrs1 & Huse & _).
  split; [ exact Ha | ]. split; [ exact Hrs1 | exact Huse ].
Defined.

(** The ALU micro-op is NONE for FENCE only, and ADD for LUI, AUIPC,
    branches, jumps, loads, stores and the SYS words with func3 = 0. *)
Theorem decode_alu_op_other (w pc uuid : Z) (i : Instr) :
  decode w pc uuid = Ok (Some i) ->
  (getAluOp i = AluOp.NONE <-> getOpcode i = Opcode.FENCE)
  /\ (match getOpcode i with
      | Opcode.R | Opcode.I | Opcode.FENCE => True
      | Opcode.SYS => getFunc3 i = 0 -> getAluOp i = AluOp.ADD
      | _ => getAluOp i = AluOp.ADD
      end).
Proof.
  intros Hdec. decode_cases_of Hdec w; split;
    first [ reflexivity | exact I | split; discriminate | split; reflexivity
          | intros Habs; discriminate Habs | auto ].
Qed.

(** The immediate flags: [use_imm] is set for every opcode but R and FENCE,
    and operand 2 is the immediate ([alu_s2_imm]) for every opcode but R,
    SYS and FENCE. *)
Theorem decode_imm_flags (w pc uuid : Z) (i : Instr) :
  decode w pc uuid = Ok (Some i) ->
  use_imm (getExeFlags i)
  = match getOpcode i with Opcode.R | Opcode.FENCE => false | _ => true end
  /\ alu_s2_imm (getExeFlags i)
     = match getOpcode i with
       | Opcode.R | Opcode.FENCE | Opcode.SYS => false
       | _ => true
       end.
Proof.
  intros Hdec. decode_cases_of Hdec w; split; reflexivity.
Qed.

(** ** The other immediates *)

(** [sext] yields a 32-bit value. *)
Lemma sext_range (v n : Z) : 0 <= n <= 32 -> 0 <= sext v n < 2 ^ 32.
Proof.
  intros Hn. unfold sext.
  change (Z.shiftl 1 n - 1) with (Z.pred (Z.shiftl 1 n)). fold (Z.ones n).
  destruct (Z.testbit v (n - 1)).
  - unfold wrap32. apply Z.mod_pos_bound. lia.
  - rewrite Z.land_ones by lia.
    pose proof (Z.mod_pos_bound v (2 ^ n) ltac:(apply Z.pow_pos_nonneg; lia)) as Hm.
    assert (2 ^ n <= 2 ^ 32) by (apply Z.pow_le_mono_r; lia). lia.
Qed.

(** On a 32-bit word, the shifted word has the bits above the shift only. *)
Lemma shiftr_range (w k : Z) :
  0 <= w < 2 ^ 32 -> 0 <= k <= 32 -> 0 <= Z.shiftr w k < 2 ^ (32 - k).
Proof.
  intros Hw Hk. rewrite Z.shiftr_div_pow2 by lia.
  assert (0 < 2 ^ k) by (apply Z.pow_pos_nonneg; lia).
  split; [ apply Z.div_pos; lia | ].
  apply Z.div_lt_upper_bound; [ lia | ].
  rewrite <- Z.pow_add_r by lia. replace (k + (32 - k)) with 32 by lia. lia.
Qed.

(** The I-type immediate: for the arithmetic-immediate words other than
    shifts, the loads and JALR, the immediate of a decoded 32-bit word is
    [instr[31:20]] sign-extended from 12 bits, i.e. the 32-bit pattern of
    the field read as a signed 12-bit number. *)
Theorem decode_I_imm (w pc uuid : Z) (i : Instr) :
  0 <= w < 2 ^ 32 ->
  decode w pc uuid = Ok (Some i) ->
  getOpcode i = Opcode.L \/ getOpcode i = Opcode.JALR
  \/ (getOpcode i = Opcode.I /\ getFunc3 i <> 1 /\ getFunc3 i <> 5) ->
  getImm i = sext (bits w 31 20) 12
  /\ getImm i = (if bits w 31 20 <? 2 ^ 11 then bits w 31 20
                 else bits w 31 20 + (2 ^ 32 - 2 ^ 12)).
Proof.
  intros Hw Hdec Hcls.
  assert (Himm : getImm i = sext (bits w 31 20) 12).
  { rewrite <- (imm12_bits w Hw). revert Hcls.
    decode_cases_of Hdec w; intros [Hc | [Hc | (Hc & Hn1 & Hn5)]];
      first [ discriminate Hc | contradiction Hn1; reflexivity
            | contradiction Hn5; reflexivity | reflexivity ]. }
  split; [ exact Himm | ]. rewrite Himm.
  apply sext_value; [ lia | ]. apply (bits_range w 31 20). lia.
Qed.

(** LW x5, -4(x2) (0xffc12283): the immediate is the 32-bit pattern of -4. *)
Lemma decode_I_imm_witness :
  exists i, decode 0xffc12283 0 0 = Ok (Some i) /\ getImm i = 0xfffffffc.
Proof.
  eexists. split; [ reflexivity | ].
  assert (Hw : 0 <= 0xffc12283 < 2 ^ 32) by lia.
  destruct (decode_I_imm 0xffc12283 0 0 _ Hw eq_refl (or_introl eq_refl)) as [_ Hv].
  exact Hv.
Defined.

(** The shift immediates (opcode I with func3 1 or 5) are the 5-bit field
    [instr[24:20]], not sign-extended: a value below 32, whatever func7
    is. *)
Theorem decode_shift_imm (w pc uuid : Z) (i : Instr) :
  decode w pc uuid = Ok (Some i) ->
  getOpcode i = Opcode.I -> getFunc3 i = 1 \/ getFunc3 i = 5 ->
  getImm i = bits w 24 20 /\ 0 <= getImm i < 32.
Proof.
  intros Hdec Hop Hf3.
  assert (Himm : getImm i = bits w 24 20).
  { rewrite <- field_rs2_bits. revert Hop Hf3.
    decode_cases_of Hdec w; intros Hc [Hf | Hf];
      first [ discriminate Hc | discriminate Hf | reflexivity ]. }
  split; [ exact Himm | ]. rewrite Himm. apply (bits_range w 24 20). lia.
Qed.

(** SRAI x5, x6, 31 (0x41f35293): the immediate is the shift amount 31. *)
Lemma decode_shift_imm_witness :
  exists i, decode 0x41f35293 0 0 = Ok (Some i) /\ getImm i = 31.
Proof.
  eexists. split; [ reflexivity | ].
  destruct (decode_shift_imm 0x41f35293 0 0 _ eq_refl eq_refl (or_intror eq_refl))
    as [Himm _].
  exact Himm.
Defined.

(** The S-type immediate of a decoded store is
    [(instr[31:25] << 5) | instr[11:7]] sign-extended from 12 bits. *)
Theorem decode_S_imm (w pc uuid : Z) (i : Instr) :
  decode w pc uuid = Ok (Some i) ->
  getOpcode i = Opcode.S ->
  getImm i = sext (S_imm_spec w) 12.
Proof.
  intros Hdec Hop. unfold S_imm_spec.
  rewrite <- field_func7_bits, <- field_rd_bits. revert Hop.
  decode_cases_of Hdec w; intros Hc; first [ discriminate Hc | reflexivity ].
Qed.

(** SW x5, -8(x2) (0xfe512c23): the immediate is the 32-bit pattern of -8. *)
Lemma decode_S_imm_witness :
  exists i, decode 0xfe512c23 0 0 = Ok (Some i)
            /\ getImm i = sext (S_imm_spec 0xfe512c23) 12
            /\ getImm i = 0xfffffff8.
Proof.
  eexists. split; [ reflexivity | ].
  split; [ apply (decode_S_imm 0xfe512c23 0 0 _ eq_refl eq_refl) | reflexivity ].
Defined.

(** On a 32-bit word, [instr_code >> k] is the field [instr[31:k]]. *)
Lemma shiftr_bits (w k : Z) :
  0 <= w < 2 ^ 32 -> 0 <= k <= 31 -> Z.shiftr w k = bits w 31 k.
Proof.
  intros Hw Hk. unfold bits. rewrite Z.land_ones by lia.
  symmetry. apply Z.mod_small.
  replace (31 - k + 1) with (32 - k) by lia. apply shiftr_range; lia.
Qed.

(** A nonnegative number without bits from position [n] on is below [2^n]. *)
Lemma lt_pow2_of_bits (v n : Z) :
  0 <= n -> 0 <= v -> (forall k, n <= k -> Z.testbit v k = false) -> v < 2 ^ n.
Proof.
  intros Hn Hv Hbits.
  destruct (Z.eq_dec v 0) as [-> | Hnz]; [ apply Z.pow_pos_nonneg; lia | ].
  apply Z.log2_lt_pow2; [ lia | ].
  destruct (Z.lt_ge_cases (Z.log2 v) n) as [Hlt | Hge]; [ exact Hlt | ].
  specialize (Hbits (Z.log2 v) Hge).
  rewrite Z.bit_log2 in Hbits by lia. discriminate Hbits.
Qed.

(** The U-type immediate (LUI, AUIPC) of a decoded 32-bit word is the word
    with its low 12 bits cleared: the field [instr[31:12]] in the upper 20
    bits, zeros below, and no sign extension. *)
Theorem decode_U_imm (w pc uuid : Z) (i : Instr) :
  0 <= w < 2 ^ 32 ->
  decode w pc uuid = Ok (Some i) ->
  getOpcode i = Opcode.LUI \/ getOpcode i = Opcode.AUIPC ->
  getImm i = bits w 31 12 * 2 ^ 12
  /\ getImm i = w - w mod 2 ^ 12.
Proof.
  intros Hw Hdec Hop.
  assert (Himm : getImm i = wrap32 (Z.shiftl (Z.shiftr w 12) 12)).
  { revert Hop. decode_cases_of Hdec w; intros [Hc | Hc];
      first [ discriminate Hc | reflexivity ]. }
  rewrite Himm. pose proof (shiftr_range w 12 Hw ltac:(lia)) as Hr.
  rewrite Z.shiftl_mul_pow2 by lia. unfold wrap32.
  rewrite Z.mod_small by (change (2 ^ (32 - 12)) with 1048576 in Hr; lia).
  split.
  - rewrite (shiftr_bits w 12 Hw) by lia. reflexivity.
  - rewrite Z.shiftr_div_pow2 by lia.
    pose proof (Z.div_mod w (2 ^ 12) ltac:(lia)). lia.
Qed.

(** LUI x5, 0x12345 (0x123452b7): the immediate is 0x12345000. *)
Lemma decode_U_imm_witness :
  exists i, decode 0x123452b7 0 0 = Ok (Some i) /\ getImm i = 0x12345000.
Proof.
  eexists. split; [ reflexivity | ].
  assert (Hw : 0 <= 0x123452b7 < 2 ^ 32) by lia.
  destruct (decode_U_imm 0x123452b7 0 0 _ Hw eq_refl (or_introl eq_refl)) as [_ Hv].
  exact Hv.
Defined.

Section JImmediate.
Variable w : Z.

Lemma J_imm_code_spec : J_imm_code w = J_imm_spec w.
Proof.
  unfold J_imm_code, J_imm_spec, bit, bits. change shift_func3 with 12.
  rewrite !Z.shiftr_shiftr by lia.
  change (12 + 8) with 20. change (12 + 9) with 21. change (12 + 19) with 31.
  change (Z.ones (19 - 12 + 1)) with 0xff. change (Z.ones (20 - 20 + 1)) with 0x1.
  change (Z.ones (30 - 21 + 1)) with 0x3ff. change (Z.ones (31 - 31 + 1)) with 0x1.
  f_equal.
  rewrite (Z.lor_comm (Z.lor _ _) (Z.shiftl (Z.land (Z.shiftr w 12) 255) 12)).
  rewrite (Z.lor_comm (Z.shiftl (Z.land (Z.shiftr w 21) 1023) 1)).
  rewrite Z.lor_assoc. reflexivity.
Qed.

Lemma J_imm_spec_bit0 : Z.testbit (J_imm_spec w) 0 = false.
Proof.
  unfold J_imm_spec. rewrite !Z.lor_spec, !Z.shiftl_spec_low by lia. reflexivity.
Qed.

Lemma J_imm_spec_range : 0 <= J_imm_spec w < 2 ^ 21.
Proof.
  assert (Hnonneg : 0 <= J_imm_spec w).
  { unfold J_imm_spec, bit, bits.
    repeat (apply Z.lor_nonneg; split);
      apply Z.shiftl_nonneg; apply Z.land_nonneg; right; rewrite Z.ones_equiv; simpl; lia. }
  split; [ exact Hnonneg | ].
  apply lt_pow2_of_bits; [ lia | exact Hnonneg | ].
  intros k Hk. unfold J_imm_spec, bit, bits.
  rewrite !Z.lor_spec, !Z.shiftl_spec, !Z.land_spec by lia.
  rewrite !Z.ones_spec_high by lia.
  rewrite !andb_false_r. reflexivity.
Qed.

End JImmediate.

(** The J-type immediate of a decoded JAL is the 21-bit value
    [(instr[19:12]<<12) | (instr[20]<<11) | (instr[30:21]<<1) | (instr[31]<<20)]
    sign-extended from 21 bits (the 32-bit pattern of the value read as a
    signed 21-bit number); its bit 0 is zero. *)
Theorem decode_J_imm (w pc uuid : Z) (i : Instr) :
  decode w pc uuid = Ok (Some i) ->
  getOpcode i = Opcode.JAL ->
  getImm i = sext (J_imm_spec w) 21
  /\ Z.testbit (getImm i) 0 = false
  /\ getImm i = (if J_imm_spec w <? 2 ^ 20 then J_imm_spec w
                 else J_imm_spec w + (2 ^ 32 - 2 ^ 21)).
Proof.
  intros Hdec Hop.
  assert (Himm : getImm i = sext (J_imm_spec w) 21).
  { rewrite <- J_imm_code_spec. revert Hop.
    decode_cases_of Hdec w; intros Hc; first [ discriminate Hc | reflexivity ]. }
  rewrite Himm. split; [ reflexivity | ]. split.
  - rewrite sext_low_bits by lia. apply J_imm_spec_bit0.
  - apply sext_value; [ lia | apply J_imm_spec_range ].
Qed.

(** JAL x1, -8 (0xff9ff0ef): the immediate is the 32-bit pattern of -8. *)
Lemma decode_J_imm_witness :
  exists i, decode 0xff9ff0ef 0x200 0 = Ok (Some i) /\ getImm i = 0xfffffff8.
Proof.
  eexists. split; [ reflexivity | ].
  destruct (decode_J_imm 0xff9ff0ef 0x200 0 _ eq_refl eq_refl) as (_ & _ & Hv).
  exact Hv.
Defined.

(** The SYS immediate of a decoded 32-bit word is the field [instr[31:20]]
    zero-extended (a CSR number or system code below 4096). *)
Theorem decode_SYS_imm (w pc uuid : Z) (i : Instr) :
  0 <= w < 2 ^ 32 ->
  decode w pc uuid = Ok (Some i) ->
  getOpcode i = Opcode.SYS ->
  getImm i = bits w 31 20 /\ 0 <= getImm i < 2 ^ 12.
Proof.
  intros Hw Hdec Hop.
  assert (Himm : getImm i = bits w 31 20).
  { rewrite <- (imm12_bits w Hw). revert Hop.
    decode_cases_of Hdec w; intros Hc; first [ discriminate Hc | reflexivity ]. }
  split; [ exact Himm | ]. rewrite Himm. apply (bits_range w 31 20). lia.
Qed.

(** CSRRW x5, mstatus(0x300), x6 (0x300312f3): the immediate is 0x300. *)
Lemma decode_SYS_imm_witness :
  exists i, decode 0x300312f3 0 0 = Ok (Some i) /\ getImm i = 0x300.
Proof.
  eexists. split; [ reflexivity | ].
  assert (Hw : 0 <= 0x300312f3 < 2 ^ 32) by lia.
  destruct (decode_SYS_imm 0x300312f3 0 0 _ Hw eq_refl eq_refl) as [Hv _].
  exact Hv.
Defined.

(** The immediate of every instruction decoded from a 32-bit word is a
    32-bit value. *)
Theorem decode_imm_range (w pc uuid : Z) (i : Instr) :
  0 <= w < 2 ^ 32 ->
  decode w pc uuid = Ok (Some i) ->
  0 <= getImm i < 2 ^ 32.
Proof.
  intros Hw Hdec.
  pose proof (field_rs2_range w) as Hrs2.
  pose proof (shiftr_range w 20 Hw ltac:(lia)) as H20.
  change (2 ^ (32 - 20)) with 4096 in H20.
  decode_cases_of Hdec w; unfold wrap32; change shift_rs2 with 20;
    first [ lia
          | apply sext_range; vm_compute; split; discriminate
          | apply Z.mod_pos_bound; lia ].
Qed.

Lemma decode_imm_range_witness :
  exists i, decode 0xfe208ee3 0 0 = Ok (Some i) /\ 0 <= getImm i < 2 ^ 32.
Proof.
  eexists. split; [ reflexivity | ].
  assert (Hw : 0 <= 0xfe208ee3 < 2 ^ 32) by lia.
  apply (decode_imm_range 0xfe208ee3 0 0 _ Hw eq_refl).
Defined.

(** ** The descriptor determines the word *)

(** The opcode enumerators carry the opcode field's value. *)
Lemma Opcode_to_of_bits (v : Z) (op : Opcode.t) :
  Opcode.of_bits v = Some op -> Opcode.to_bits op = v.
Proof.
  unfold Opcode.of_bits.
  destruct v as [ | p | p ]; try discriminate.
  do 7 (try destruct p as [ p | p | ]); try discriminate;
    intros [= <-]; reflexivity.
Qed.

(** A 32-bit word is the sum of its six fields at their positions. *)
Lemma word_fields (w : Z) :
  0 <= w < 2 ^ 32 ->
  w = field_opcode w + field_rd w * 2 ^ 7 + field_func3 w * 2 ^ 12
      + field_rs1 w * 2 ^ 15 + field_rs2 w * 2 ^ 20 + field_func7 w * 2 ^ 25.
Proof.
  intros Hw.
  rewrite field_opcode_bits, field_rd_bits, field_func3_bits, field_rs1_bits,
    field_rs2_bits, field_func7_bits.
  unfold bits. rewrite !Z.land_ones, !Z.shiftr_div_pow2 by lia.
  change (6 - 0 + 1) with 7. change (11 - 7 + 1) with 5. change (14 - 12 + 1) with 3.
  change (19 - 15 + 1) with 5. change (24 - 20 + 1) with 5. change (31 - 25 + 1) with 7.
  change (2 ^ 0) with 1. rewrite Z.div_1_r.
  change (2 ^ 7) with 128. change (2 ^ 5) with 32. change (2 ^ 3) with 8.
  change (2 ^ 12) with 4096. change (2 ^ 15) with 32768.
  change (2 ^ 20) with 1048576. change (2 ^ 25) with 33554432.
  change (2 ^ 32) with 4294967296 in Hw.
  Z.div_mod_to_equations. lia.
Qed.

(** No information is lost by [decode]: the opcode and the five raw fields
    of a descriptor decoded from a 32-bit word give the word back, so two
    32-bit words with the same descriptor are the same word. *)
Theorem decode_reassemble (w pc uuid : Z) (i : Instr) :
  0 <= w < 2 ^ 32 ->
  decode w pc uuid = Ok (Some i) ->
  reassemble i = w
  /\ (forall w' pc' uuid',
        0 <= w' < 2 ^ 32 -> decode w' pc' uuid' = Ok (Some i) -> w' = w).
Proof.
  assert (Hre : forall v p u j,
             0 <= v < 2 ^ 32 -> decode v p u = Ok (Some j) -> reassemble j = v).
  { intros v p u j Hv Hdec.
    destruct (decode_Some_inv _ _ _ _ Hdec)
      as (op & ty & fl & imm & a & b & fl' & Hop & _ & _ & _ & ->).
    unfold reassemble. cbn [getOpcode getRd getRs1 getRs2 getFunc3 getFunc7].
    rewrite (Opcode_to_of_bits _ _ Hop). symmetry. apply word_fields. exact Hv. }
  intros Hw Hdec. split; [ exact (Hre _ _ _ _ Hw Hdec) | ].
  intros w' pc' uuid' Hw' Hdec'.
  rewrite <- (Hre _ _ _ _ Hw Hdec). symmetry. exact (Hre _ _ _ _ Hw' Hdec').
Qed.

Lemma decode_reassemble_witness :
  exists i, decode 0x40515133 0 0 = Ok (Some i) /\ reassemble i = 0x40515133.
Proof.
  eexists. split; [ reflexivity | ].
  assert (Hw : 0 <= 0x40515133 < 2 ^ 32) by lia.
  destruct (decode_reassemble 0x40515133 0 0 _ Hw eq_refl) as [Hre _].
  exact Hre.
Defined.

(** * The disassembly *)

Example print_addi :
  (do i <- decode 0x00500093 0 1;
   match i with Some i => print_instr i | None => Fault StdAbort end)
  = Ok "ADDI x1, x0, 0x5, PC=0x0 (#1)"%string.
Proof. vm_compute. reflexivity. Qed.

Example print_fence :
  (do i <- decode 0x0000000f 0x1c 26;
   match i with Some i => print_instr i | None => Fault StdAbort end)
  = Ok "FENCE, PC=0x1c (#26)"%string.
Proof. vm_compute. reflexivity. Qed.

(** [op_string] on what [decode] returns: it aborts on the loads with
    func3 = 7 and the stores with func3 above 3, which [decode] accepts, and
    names every other decoded instruction. *)
Theorem op_string_decoded (w pc uuid : Z) (i : Instr) :
  decode w pc uuid = Ok (Some i) ->
  if (Opcode.eqb (getOpcode i) Opcode.L && (getFunc3 i =? 7))
     || (Opcode.eqb (getOpcode i) Opcode.S && (4 <=? getFunc3 i))
  then op_string i = Fault StdAbort
  else exists name, op_string i = Ok name.
Proof.
  intros Hdec. decode_cases_of Hdec w; unfold op_string; descriptor_simpl;
    cbn [Opcode.eqb andb orb Z.leb Z.compare Pos.compare Pos.compare_cont];
    try solve [ reflexivity | eauto ];
    repeat match goal with
           | |- context [if ?c then _ else _] =>
               let Ec := fresh "Ec" in
               destruct c eqn:Ec; rewrite ?Ec in *; cbn [orb] in *
           end;
    solve [ eauto | congruence ].
Qed.

(** LW-like word with func3 = 7 (0x00007003): decoded, but without a name. *)
Lemma op_string_decoded_witness :
  exists i, decode 0x00007003 0 0 = Ok (Some i) /\ op_string i = Fault StdAbort.
Proof.
  eexists. split; [ reflexivity | ].
  apply (op_string_decoded 0x00007003 0 0 _ eq_refl).
Defined.

(** The mnemonic against the micro-op, for decoded R and I words: the name
    is SUB exactly when the micro-op is SUB; a word named SRA or SRAI has
    the micro-op SRA, and a word of micro-op SRL is named SRL or SRLI. *)
Theorem op_string_alu_op (w pc uuid : Z) (i : Instr) :
  decode w pc uuid = Ok (Some i) ->
  getOpcode i = Opcode.R \/ getOpcode i = Opcode.I ->
  (op_string i = Ok "SUB"%string <-> getAluOp i = AluOp.SUB)
  /\ (op_string i = Ok "SRA"%string \/ op_string i = Ok "SRAI"%string ->
      getAluOp i = AluOp.SRA)
  /\ (getAluOp i = AluOp.SRL ->
      op_string i = Ok "SRL"%string \/ op_string i = Ok "SRLI"%string).
Proof.
  intros Hdec.
  assert (Hz : forall f7, negb (f7 =? 0) = false -> (Z.land f7 32 =? 0) = true).
  { intros f7 Hf7. apply negb_false_iff, Z.eqb_eq in Hf7. subst f7. reflexivity. }
  decode_cases_of Hdec w; intros [Hc | Hc]; try discriminate Hc;
    unfold op_string; descriptor_simpl;
    repeat match goal with
           | H : negb (_ =? 0) = false |- _ => rewrite ?(Hz _ H), ?H; clear H
           | H : negb (_ =? 0) = true |- _ => rewrite ?H; clear H
           end;
    cbn [negb];
    repeat match goal with
           | |- context [if ?c then _ else _] => destruct c
           end;
    (split; [ split; intros Hx; first [ reflexivity | discriminate Hx ] | ]);
    (split; [ intros [Hx | Hx]; first [ reflexivity | discriminate Hx ]
            | intros Hx; first [ discriminate Hx | left; reflexivity | right; reflexivity ] ]).
Qed.

Lemma op_string_alu_op_witness :
  exists i, decode 0x40515133 0 0 = Ok (Some i)
            /\ op_string i = Ok "SRA"%string /\ getAluOp i = AluOp.SRA.
Proof.
  eexists. split; [ reflexivity | ]. split; [ reflexivity | ].
  destruct (op_string_alu_op 0x40515133 0 0 _ eq_refl (or_introl eq_refl))
    as (_ & Hsra & _).
  apply Hsra. left. reflexivity.
Defined.

(** The rendering of [operator<<]: the mnemonic, then the used operands in
    the order rd, rs1, rs2, imm -- a space before the first and ", " before
    each other one -- then ", PC=0x" with the PC in hexadecimal and " (#"
    with the uuid in decimal; without a mnemonic nothing is rendered. *)
Theorem print_instr_layout (instr : Instr) :
  print_instr instr
  = (do name <- op_string instr;
     Ok (with_operands name (operand_texts instr)
         +++ ", PC=0x" +++ print_hex (getPC instr)
         +++ " (#" +++ print_dec (getId instr) +++ ")")).
Proof.
  unfold print_instr, operand_texts, print_operand.
  destruct (op_string instr) as [name | f]; [ | reflexivity ].
  cbn [bind].
  destruct (use_rd (getExeFlags instr)), (use_rs1 (getExeFlags instr)),
    (use_rs2 (getExeFlags instr)), (use_imm (getExeFlags instr)); reflexivity.
Qed.

(** * Further properties of the core *)

Section StageFrames.

Context {FU : Type} `{FunctionalUnit FU}.
Variable RS_locked : RS.t -> Z -> bool.

(** [ROB.update] changes one entry's result and ready bit only. *)
Lemma ROB_update_Ok (d : cdb_data_t) (r r' : ROB.t) :
  ROB.update d r = Ok r' ->
  exists e,
    ROB.get_entry r (cdb_rob_index d) = Ok e
    /\ r' = ROB.mkROB (<[Z.to_nat (cdb_rob_index d)
                         := ROB.mkEntry (ROB.instr e) (cdb_result d) true]> (ROB.store r))
                      (ROB.head r) (ROB.tail r) (ROB.count r).
Proof.
  unfold ROB.update, ROB.get_entry.
  destruct (vec_at (ROB.store r) (cdb_rob_index d)) as [e | ]; simpl; [ | discriminate ].
  destruct (vec_set (ROB.store r) _ _) as [st | ] eqn:Hset; simpl; [ | discriminate ].
  intros [= <-]. apply vec_set_Ok in Hset as [_ ->]. exists e. split; reflexivity.
Qed.

(** [RS.release] frees one slot and keeps its other fields. *)
Lemma RS_release_Ok (k : Z) (rs rs' : RS.t) :
  RS.release k rs = Ok rs' ->
  exists e,
    vec_at rs k = Ok e
    /\ rs' = <[Z.to_nat k := RS.mkEntry false false (RS.instr e) (RS.rob_index e)
                               (RS.rs1_tag e) (RS.rs2_tag e) (RS.rs1_data e)
                               (RS.rs2_data e)]> rs.
Proof.
  unfold RS.release.
  destruct (vec_at rs k) as [e | ]; simpl; [ | discriminate ].
  intros Hset. apply vec_set_Ok in Hset as [_ ->]. exists e. split; reflexivity.
Qed.

(** The dispatch loop keeps the number of stations and of units. *)
Lemma dispatch_one_lengths (k : nat) (rs rs' : RS.t) (fus fus' : list FU) :
  dispatch_one RS_locked k rs fus = Ok (rs', fus') ->
  length rs' = length rs /\ length fus' = length fus.
Proof.
  unfold dispatch_one.
  destruct (RS.get_entry rs (Z.of_nat k)) as [entry | ]; simpl; [ | discriminate ].
  destruct (_ && _); [ | intros [= <- <-]; auto ].
  destruct (RS.instr entry) as [instr | ]; [ | discriminate ].
  destruct (fus !! _) as [fu | ]; [ | discriminate ].
  intros [= <- <-]. split; apply length_insert.
Qed.

(** Who writes what: the register file is written by [commit] only; the
    RAT is left alone by [writeback] and [execute]; the reorder buffer by
    [execute]; the CDB by [issue] and [commit]; the reservation stations by
    [commit]; the functional units by [issue], [writeback] and [commit];
    the issue queue by every stage but [issue]. *)
Theorem stage_frames (c c' : Core FU) :
  (issue c = Ok c' ->
     reg_file_ c' = reg_file_ c /\ CDB_ c' = CDB_ c /\ FUs_ c' = FUs_ c
     /\ perf_stats_instrs c' = perf_stats_instrs c /\ exited_ c' = exited_ c)
  /\ (execute RS_locked c = Ok c' ->
     reg_file_ c' = reg_file_ c /\ RAT_ c' = RAT_ c /\ RST_ c' = RST_ c
     /\ ROB_ c' = ROB_ c /\ issue_queue_ c' = issue_queue_ c
     /\ perf_stats_instrs c' = perf_stats_instrs c /\ exited_ c' = exited_ c)
  /\ (writeback c = Ok c' ->
     reg_file_ c' = reg_file_ c /\ RAT_ c' = RAT_ c /\ RST_ c' = RST_ c
     /\ FUs_ c' = FUs_ c /\ issue_queue_ c' = issue_queue_ c
     /\ perf_stats_instrs c' = perf_stats_instrs c /\ exited_ c' = exited_ c)
  /\ (commit c = Ok c' ->
     RS_ c' = RS_ c /\ RST_ c' = RST_ c /\ CDB_ c' = CDB_ c /\ FUs_ c' = FUs_ c
     /\ issue_queue_ c' = issue_queue_ c
     /\ (exited_ c = true -> exited_ c' = true)).
Proof.
  split; [ | split; [ | split ] ].
  - unfold issue.
    destruct (issue_queue_ c) as [ | instr queue_rest ];
      [ intros [= <-]; repeat split | ].
    destruct (RS.full (RS_ c)); [ intros [= <-]; repeat split | ].
    destruct (ROB.full (ROB_ c)); [ intros [= <-]; repeat split | ].
    destruct (read_operand c _ (getRs1 instr)) as [[d1 t1] | ]; simpl; [ | discriminate ].
    destruct (read_operand c _ (getRs2 instr)) as [[d2 t2] | ]; simpl; [ | discriminate ].
    destruct (RS.issue _ _ _ _ _ _ _) as [[k rs] | ]; simpl; [ | discriminate ].
    intros [= <-]. repeat split.
  - unfold execute.
    destruct (publish_done _ _) as [[fus1 cdb] | ]; simpl; [ | discriminate ].
    destruct (dispatch_from _ _ _ _ _) as [[rs fus2] | ]; simpl; [ | discriminate ].
    intros [= <-]. repeat split.
  - unfold writeback.
    destruct (CDB_ c) as [cdb_data | ]; [ | intros [= <-]; repeat split ].
    destruct (RS.release _ _) as [rs1 | ]; simpl; [ | discriminate ].
    destruct (ROB.update cdb_data (ROB_ c)) as [rob | ]; simpl; [ | discriminate ].
    intros [= <-]. repeat split.
  - unfold commit.
    destruct (ROB.empty (ROB_ c)); [ intros [= <-]; repeat split; auto | ].
    destruct (ROB.get_entry (ROB_ c) _) as [rob_head | ]; simpl; [ | discriminate ].
    destruct (ROB.ready rob_head); [ | intros [= <-]; repeat split; auto ].
    destruct (ROB.instr rob_head) as [instr | ]; [ | discriminate ].
    destruct (commit_write c _ rob_head instr) as [[regs rat] | ]; simpl; [ | discriminate ].
    destruct (perf_stats_instrs c <=? fetched_instrs_ c); [ | discriminate ].
    intros [= <-]. simpl. repeat split.
    intros ->. destruct (is_exit (getExeFlags instr)); reflexivity.
Qed.

(** In-order commit: with an empty reorder buffer, or with a head entry
    that is not ready, [commit] returns the core as it is -- nothing is
    retired, however many later entries are ready. *)
Theorem commit_blocked (c : Core FU) :
  ROB.empty (ROB_ c) = true
  \/ (exists rob_head,
        ROB.get_entry (ROB_ c) (ROB.head_index (ROB_ c)) = Ok rob_head
        /\ ROB.ready rob_head = false) ->
  commit c = Ok c.
Proof.
  unfold commit. intros [Hempty | (rob_head & Hhead & Hready)].
  - rewrite Hempty. reflexivity.
  - destruct (ROB.empty (ROB_ c)); [ reflexivity | ].
    rewrite Hhead. simpl. rewrite Hready. reflexivity.
Qed.

(** A commit that retires: with a ready head, the retired count goes up by
    one (as a 64-bit counter), the head leaves the reorder buffer, and
    [exited_] is set when the instruction has [is_exit]; when the retired
    count already exceeds the fetched count, the assertion stops the
    commit. *)
Theorem commit_retires (c : Core FU) (rob_head : ROB.entry_t) (instr : Instr) :
  ROB.empty (ROB_ c) = false ->
  ROB.get_entry (ROB_ c) (ROB.head_index (ROB_ c)) = Ok rob_head ->
  ROB.ready rob_head = true ->
  ROB.instr rob_head = Some instr ->
  (forall c', commit c = Ok c' ->
     perf_stats_instrs c' = (perf_stats_instrs c + 1) mod 2 ^ 64
     /\ ROB_ c' = ROB.pop (ROB_ c)
     /\ ROB.count (ROB_ c') = Nat.pred (ROB.count (ROB_ c))
     /\ ROB.store (ROB_ c') = ROB.store (ROB_ c)
     /\ exited_ c' = (is_exit (getExeFlags instr) || exited_ c)
     /\ fetched_instrs_ c' = fetched_instrs_ c
     /\ perf_stats_instrs c <= fetched_instrs_ c)
  /\ (fetched_instrs_ c < perf_stats_instrs c ->
      0 <= getRd instr < Z.of_nat (length (reg_file_ c)) ->
      commit c = Fault AssertFail).
Proof.
  intros Hne Hhead Hready Hinstr.
  rewrite (commit_ready_head c rob_head instr Hne Hhead Hready Hinstr). split.
  - intros c'.
    destruct (commit_write c _ rob_head instr) as [[regs rat] | ]; simpl; [ | discriminate ].
    destruct (Z.leb_spec (perf_stats_instrs c) (fetched_instrs_ c)) as [Hle | Hgt];
      [ | discriminate ].
    intros [= <-]. simpl. repeat split; try assumption;
      try (destruct (is_exit (getExeFlags instr)); reflexivity).
  - intros Hgt Hrd. unfold commit_write.
    destruct (use_rd (getExeFlags instr)); simpl.
    + destruct (vec_set (reg_file_ c) (getRd instr) (ROB.result rob_head))
        as [regs | ] eqn:Hset; simpl.
      * destruct (Z.leb_spec (perf_stats_instrs c) (fetched_instrs_ c)); [ lia | ].
        case_bool_decide; reflexivity.
      * unfold vec_set in Hset.
        destruct (Z.ltb_spec (getRd instr) 0); [ lia | ].
        destruct (Z.leb_spec (Z.of_nat (length (reg_file_ c))) (getRd instr)); [ lia | ].
        discriminate Hset.
    + destruct (Z.leb_spec (perf_stats_instrs c) (fetched_instrs_ c)); [ lia | reflexivity ].
Qed.

End StageFrames.

(** The first writer of scenario 7 commits: the frame of [commit]. *)
Lemma stage_frames_witness :
  exists c', commit two_writers_core = Ok c'
             /\ RS_ c' = RS_ two_writers_core /\ CDB_ c' = CDB_ two_writers_core.
Proof.
  assert (Hc : exists c', commit two_writers_core = Ok c')
    by (eexists; vm_compute; reflexivity).
  destruct Hc as [c' Hc']. exists c'. split; [ exact Hc' | ].
  destruct (stage_frames never_locked two_writers_core c') as (_ & _ & _ & Hcommit).
  destruct (Hcommit Hc') as (Hrs & _ & Hcdb & _).
  split; [ exact Hrs | exact Hcdb ].
Defined.

(** The ADDI at the head of the reorder buffer has not executed yet. *)
Lemma commit_blocked_witness :
  ROB.empty (ROB_ pending_operand_core) = false
  /\ commit pending_operand_core = Ok pending_operand_core.
Proof.
  split; [ reflexivity | ].
  apply (commit_blocked pending_operand_core). right.
  eexists. split; [ vm_compute; reflexivity | reflexivity ].
Defined.

Lemma commit_retires_witness :
  exists c', commit two_writers_core = Ok c'
             /\ perf_stats_instrs c' = 1
             /\ ROB.count (ROB_ c') = 1%nat.
Proof.
  assert (Hc : exists c', commit two_writers_core = Ok c')
    by (eexists; vm_compute; reflexivity).
  destruct Hc as [c' Hc']. exists c'. split; [ exact Hc' | ].
  destruct (commit_retires two_writers_core _ _ eq_refl eq_refl eq_refl eq_refl)
    as [Hret _].
  destruct (Hret c' Hc') as (Hperf & _ & Hcount & _).
  split; [ exact Hperf | exact Hcount ].
Defined.

(** ** The writeback stage *)

Section Writeback.

Context {FU : Type}.

(** Without a value on the CDB, [writeback] returns the core as it is. *)
Lemma writeback_idle (c : Core FU) : CDB_ c = None -> writeback c = Ok c.
Proof. intros Hcdb. unfold writeback. rewrite Hcdb. reflexivity. Qed.

(** A writeback with the value [d] on the CDB: the CDB is empty afterwards;
    the ROB entry [d.rob_index] keeps its instruction, holds the result and
    is ready, and no other ROB entry, nor head, tail or count, changes; the
    station [d.rs_index] is free (not valid, not running); every other
    station keeps its flags, instruction and ROB index, and each of its
    operands whose tag equals [d.rs_index] gets the result as data and the
    tag -1, the other operands staying as they are. *)
Theorem writeback_broadcast (c c' : Core FU) (d : cdb_data_t) :
  CDB_ c = Some d ->
  writeback c = Ok c' ->
  CDB_ c' = None
  /\ (exists e,
        ROB.get_entry (ROB_ c) (cdb_rob_index d) = Ok e
        /\ ROB.get_entry (ROB_ c') (cdb_rob_index d)
           = Ok (ROB.mkEntry (ROB.instr e) (cdb_result d) true))
  /\ (forall k, k <> Z.to_nat (cdb_rob_index d) ->
        ROB.store (ROB_ c') !! k = ROB.store (ROB_ c) !! k)
  /\ ROB.head (ROB_ c') = ROB.head (ROB_ c)
  /\ ROB.tail (ROB_ c') = ROB.tail (ROB_ c)
  /\ ROB.count (ROB_ c') = ROB.count (ROB_ c)
  /\ length (RS_ c') = length (RS_ c)
  /\ (exists e, RS.get_entry (RS_ c') (cdb_rs_index d) = Ok e
                /\ RS.valid e = false /\ RS.running e = false)
  /\ (forall k e, k <> Z.to_nat (cdb_rs_index d) -> RS_ c !! k = Some e ->
        exists e',
          RS_ c' !! k = Some e'
          /\ RS.valid e' = RS.valid e /\ RS.running e' = RS.running e
          /\ RS.instr e' = RS.instr e /\ RS.rob_index e' = RS.rob_index e
          /\ (if RS.rs1_tag e =? cdb_rs_index d
              then RS.rs1_tag e' = -1 /\ RS.rs1_data e' = cdb_result d
              else RS.rs1_tag e' = RS.rs1_tag e /\ RS.rs1_data e' = RS.rs1_data e)
          /\ (if RS.rs2_tag e =? cdb_rs_index d
              then RS.rs2_tag e' = -1 /\ RS.rs2_data e' = cdb_result d
              else RS.rs2_tag e' = RS.rs2_tag e /\ RS.rs2_data e' = RS.rs2_data e)).
Proof.
  intros Hcdb. unfold writeback. rewrite Hcdb.
  destruct (RS.release _ _) as [rs1 | ] eqn:Hrel; simpl; [ | discriminate ].
  destruct (ROB.update d (ROB_ c)) as [rob | ] eqn:Hupd; simpl; [ | discriminate ].
  intros [= <-]. simpl.
  apply ROB_update_Ok in Hupd as (e & He & ->).
  apply RS_release_Ok in Hrel as (e1 & He1 & ->).
  pose proof He as He'. apply vec_at_Ok in He' as [Hpos Hlook].
  pose proof He1 as He1'. apply vec_at_Ok in He1' as [Hpos1 Hlook1].
  split; [ reflexivity | ].
  split.
  { exists e. split; [ exact He | ].
    apply vec_at_Ok. split; [ exact Hpos | ]. simpl.
    apply list_lookup_insert_eq. eapply lookup_lt_Some, Hlook. }
  split; [ intros k Hk; simpl; apply list_lookup_insert_ne; congruence | ].
  split; [ reflexivity | ]. split; [ reflexivity | ]. split; [ reflexivity | ].
  split; [ etransitivity; [ apply length_insert | apply length_map ] | ].
  split.
  { eexists. split.
    - apply vec_at_Ok. split; [ exact Hpos1 | ].
      apply list_lookup_insert_eq. eapply lookup_lt_Some, Hlook1.
    - split; reflexivity. }
  intros k e0 Hk Hk0.
  exists (RS.update_operands d e0). split.
  - etransitivity; [ apply list_lookup_insert_ne; congruence | ].
    etransitivity; [ apply list_lookup_fmap | ].
    unfold RS.t in *. rewrite Hk0. reflexivity.
  - unfold RS.update_operands.
    destruct (RS.rs1_tag e0 =? cdb_rs_index d), (RS.rs2_tag e0 =? cdb_rs_index d);
      simpl; repeat split.
Qed.

End Writeback.

(** Scenario 7 after five cycles: the second writer's result is on the
    CDB; the writeback marks ROB entry 1 ready with the result 2. *)
Lemma writeback_broadcast_witness :
  exists c' e, writeback two_writers_core = Ok c'
               /\ CDB_ c' = None
               /\ ROB.get_entry (ROB_ c') 1 = Ok e
               /\ ROB.result e = 2 /\ ROB.ready e = true.
Proof.
  assert (Hc : exists c', writeback two_writers_core = Ok c')
    by (eexists; vm_compute; reflexivity).
  destruct Hc as [c' Hc'].
  destruct (writeback_broadcast two_writers_core c' _ eq_refl Hc')
    as (Hcdb & (e & He & He') & _).
  exists c'. eexists. split; [ exact Hc' | ]. split; [ exact Hcdb | ].
  split; [ exact He' | ]. split; reflexivity.
Defined.

(** ** The issue stage: renaming *)

Section IssueRenames.

Context {FU : Type}.

(** An issue that does not stall: the instruction leaves the queue; it
    gets the ROB entry at the tail, not ready, and the count grows by one
    while the other entries stay; when it writes a register the RAT maps
    [rd] to that ROB index, and no other mapping changes; exactly one
    reservation station, a free one, is filled, with that ROB index. *)
Theorem issue_renames (c c' : Core FU) (instr : Instr) (queue_rest : list Instr) :
  issue_queue_ c = instr :: queue_rest ->
  RS.full (RS_ c) = false ->
  ROB.full (ROB_ c) = false ->
  (ROB.tail (ROB_ c) < length (ROB.store (ROB_ c)))%nat ->
  issue c = Ok c' ->
  issue_queue_ c' = queue_rest
  /\ ROB.get_entry (ROB_ c') (Z.of_nat (ROB.tail (ROB_ c)))
     = Ok (ROB.mkEntry (Some instr) 0 false)
  /\ (forall k, k <> ROB.tail (ROB_ c) ->
        ROB.store (ROB_ c') !! k = ROB.store (ROB_ c) !! k)
  /\ ROB.count (ROB_ c') = S (ROB.count (ROB_ c))
  /\ ROB.head (ROB_ c') = ROB.head (ROB_ c)
  /\ (if use_rd (getExeFlags instr)
      then RAT_ c' !! getRd instr = Some (Z.of_nat (ROB.tail (ROB_ c)))
           /\ (forall r, r <> getRd instr -> RAT_ c' !! r = RAT_ c !! r)
      else RAT_ c' = RAT_ c)
  /\ (exists (rs_index : nat) (e : RS.entry_t),
        RS_ c' !! rs_index = Some e
        /\ RS.rob_index e = Z.of_nat (ROB.tail (ROB_ c))
        /\ length (RS_ c') = length (RS_ c)
        /\ (forall j, j <> rs_index -> RS_ c' !! j = RS_ c !! j)).
Proof.
  intros Hq Hrs Hrob Htail. unfold issue. rewrite Hq, Hrs, Hrob.
  destruct (read_operand c _ (getRs1 instr)) as [[d1 t1] | ]; simpl; [ | discriminate ].
  destruct (read_operand c _ (getRs2 instr)) as [[d2 t2] | ]; simpl; [ | discriminate ].
  unfold RS.issue.
  destruct (RS.free_slot 0 (RS_ c)) as [k | ] eqn:Hfree; simpl; [ | discriminate ].
  pose proof (RS_free_slot_range _ _ _ Hfree) as Hk.
  intros [= <-]. simpl.
  split; [ reflexivity | ].
  split.
  { apply vec_at_Ok. split; [ lia | ]. rewrite Nat2Z.id.
    apply list_lookup_insert_eq. exact Htail. }
  split; [ intros j Hj; apply list_lookup_insert_ne; congruence | ].
  split; [ reflexivity | ]. split; [ reflexivity | ].
  split.
  { destruct (use_rd (getExeFlags instr)); [ | reflexivity ].
    split; [ apply lookup_insert_eq | ].
    intros r Hr. apply lookup_insert_ne. congruence. }
  eexists k, _. split; [ apply list_lookup_insert_eq; lia | ].
  split; [ reflexivity | ].
  split; [ apply length_insert | ].
  intros j Hj. apply list_lookup_insert_ne. congruence.
Qed.

End IssueRenames.

(** The JALR of [collision_program] gets ROB entry 1 and the RAT maps x2
    to it. *)
Lemma issue_renames_witness :
  exists c', issue pending_operand_core = Ok c'
             /\ RAT_ c' !! 2 = Some 1
             /\ ROB.count (ROB_ c') = 2%nat.
Proof.
  assert (Hc : exists c', issue pending_operand_core = Ok c')
    by (eexists; vm_compute; reflexivity).
  destruct Hc as [c' Hc']. exists c'. split; [ exact Hc' | ].
  assert (Htail : (1 < 32)%nat) by lia.
  destruct (issue_renames pending_operand_core c' _ _ eq_refl eq_refl eq_refl Htail Hc')
    as (_ & _ & _ & Hcount & _ & Hrat & _).
  destruct Hrat as [Hrd _].
  split; [ exact Hrd | exact Hcount ].
Defined.

(** ** The execute stage: dispatch and the single result *)

Section Dispatch.

Context {FU : Type} `{FunctionalUnit FU}.
Variable RS_locked : RS.t -> Z -> bool.

Lemma dispatch_one_entries (n : nat) (rs rs' : RS.t) (fus fus' : list FU) :
  dispatch_one RS_locked n rs fus = Ok (rs', fus') ->
  forall k e, rs !! k = Some e -> exists e', rs' !! k = Some e' /\ dispatched_or_same e e'.
Proof.
  unfold dispatch_one.
  destruct (RS.get_entry rs (Z.of_nat n)) as [entry | ] eqn:Hentry; simpl; [ | discriminate ].
  destruct (RS.valid entry) eqn:Hv; simpl;
    [ | intros [= <- <-] k e He; exists e; split; [ exact He | left; reflexivity ] ].
  destruct (RS.running entry) eqn:Hr; simpl;
    [ intros [= <- <-] k e He; exists e; split; [ exact He | left; reflexivity ] | ].
  destruct (RS.operands_ready entry) eqn:Ho; simpl;
    [ | intros [= <- <-] k e He; exists e; split; [ exact He | left; reflexivity ] ].
  destruct (RS_locked rs (Z.of_nat n)); simpl;
    [ intros [= <- <-] k e He; exists e; split; [ exact He | left; reflexivity ] | ].
  destruct (RS.instr entry) as [instr | ]; [ | discriminate ].
  destruct (fus !! _) as [fu | ]; [ | discriminate ].
  intros [= <- <-] k e He.
  apply vec_at_Ok in Hentry as [_ Hlook]. rewrite Nat2Z.id in Hlook.
  destruct (Nat.eq_dec k n) as [-> | Hne].
  - unfold RS.t in *. rewrite Hlook in He. injection He as <-.
    exists (RS.set_running true entry). split.
    + apply list_lookup_insert_eq. eapply lookup_lt_Some, Hlook.
    + right. auto.
  - exists e. split; [ | left; reflexivity ].
    etransitivity; [ apply list_lookup_insert_ne; congruence | exact He ].
Qed.

Lemma dispatched_or_same_trans (e e' e'' : RS.entry_t) :
  dispatched_or_same e e' -> dispatched_or_same e' e'' -> dispatched_or_same e e''.
Proof.
  intros [-> | (-> & Hv & Hr & Ho)] [-> | (-> & Hv' & Hr' & Ho')].
  - left; reflexivity.
  - right; auto.
  - right; auto.
  - simpl in Hr'. discriminate Hr'.
Qed.

Lemma dispatch_from_entries (n base : nat) (rs rs' : RS.t) (fus fus' : list FU) :
  dispatch_from RS_locked n base rs fus = Ok (rs', fus') ->
  forall k e, rs !! k = Some e -> exists e', rs' !! k = Some e' /\ dispatched_or_same e e'.
Proof.
  revert base rs fus. induction n as [ | n IH ]; intros base rs fus; simpl.
  - intros [= <- <-] k e He. exists e. split; [ exact He | left; reflexivity ].
  - destruct (dispatch_one RS_locked base rs fus) as [[rs1 fus1] | ] eqn:Hone; simpl;
      [ | discriminate ].
    intros Hrest k e He.
    destruct (dispatch_one_entries _ _ _ _ _ Hone k e He) as (e1 & He1 & Hrel1).
    destruct (IH _ _ _ Hrest k e1 He1) as (e2 & He2 & Hrel2).
    exists e2. split; [ exact He2 | ]. eapply dispatched_or_same_trans; eassumption.
Qed.

(** [execute] and the reservation stations: every station is either left
    as it is, or has [running] set -- and then it was valid, not running
    and had both operands ready; so a running station is never dispatched
    again, and valid flags, tags, data and ROB indices never change. *)
Theorem execute_dispatch (c c' : Core FU) :
  execute RS_locked c = Ok c' ->
  forall k e, RS_ c !! k = Some e ->
    exists e', RS_ c' !! k = Some e'
               /\ (e' = e
                   \/ (e' = RS.set_running true e
                       /\ RS.valid e = true /\ RS.running e = false
                       /\ RS.operands_ready e = true)).
Proof.
  unfold execute.
  destruct (publish_done _ _) as [[fus1 cdb] | ]; simpl; [ | discriminate ].
  destruct (dispatch_from _ _ _ _ _) as [[rs fus2] | ] eqn:Hd; simpl; [ | discriminate ].
  intros [= <-] k e He. simpl.
  exact (dispatch_from_entries _ _ _ _ _ _ Hd k e He).
Qed.

(** The publishing loop with at most one unit done: with none, nothing is
    pushed and no unit changes; with exactly one and an empty CDB, its
    output is on the CDB afterwards, it has been cleared and the other
    units are as they were. *)
Theorem publish_done_at_most_one (pre post : list FU) (fu : FU) (cdb : CDB.t) :
  existsb fu_done pre = false ->
  existsb fu_done post = false ->
  publish_done pre cdb = Ok (pre, cdb)
  /\ (fu_done fu = true ->
      publish_done (pre ++ fu :: post) None
      = Ok (pre ++ fu_clear fu :: post,
            Some (mkCdbData (cdb_result (fu_get_output fu))
                            (cdb_rob_index (fu_get_output fu))
                            (cdb_rs_index (fu_get_output fu))))).
Proof.
  assert (Hnone : forall fus cdb0, existsb fu_done fus = false ->
                                   publish_done fus cdb0 = Ok (fus, cdb0)).
  { induction fus as [ | fu0 rest IH ]; intros cdb0 Hex; simpl; [ reflexivity | ].
    simpl in Hex. apply orb_false_elim in Hex as [H0 Hrest].
    rewrite H0, (IH _ Hrest). reflexivity. }
  intros Hpre Hpost. split; [ apply Hnone; exact Hpre | ].
  intros Hdone. clear cdb.
  induction pre as [ | fu0 pre IH ]; simpl.
  - rewrite Hdone. simpl. rewrite (Hnone _ _ Hpost). reflexivity.
  - simpl in Hpre. apply orb_false_elim in Hpre as [H0 Hpre].
    rewrite H0, (IH Hpre). reflexivity.
Qed.

End Dispatch.

Lemma execute_dispatch_witness :
  exists c', execute never_locked pending_operand_core = Ok c'
             /\ (RS.running <$> RS_ c' !! 0%nat) = Some true.
Proof.
  assert (Hc : exists c', execute never_locked pending_operand_core = Ok c')
    by (eexists; vm_compute; reflexivity).
  destruct Hc as [c' Hc']. exists c'. split; [ exact Hc' | ].
  destruct (execute_dispatch never_locked pending_operand_core c' Hc' 0%nat _ eq_refl)
    as (e' & He' & Hrel).
  rewrite He'. simpl. f_equal.
  destruct Hrel as [-> | (-> & _)]; [ | reflexivity ].
  revert He' Hc'. vm_compute. intros He' [= <-]. discriminate He'.
Defined.

Lemma publish_done_at_most_one_witness :
  publish_done [latch_idle; latch_done (mkCdbData 7 3 2); latch_idle] None
  = Ok ([latch_idle; latch_idle; latch_idle], Some (mkCdbData 7 3 2)).
Proof.
  assert (Hidle : existsb fu_done [latch_idle] = false) by reflexivity.
  destruct (publish_done_at_most_one [latch_idle] [latch_idle]
              (latch_done (mkCdbData 7 3 2)) None Hidle Hidle) as [_ Hone].
  apply Hone. reflexivity.
Defined.

(** ** The RAT names the producers *)

Lemma mod_slot_inj (cap h k k' : nat) :
  (k < cap)%nat -> (k' < cap)%nat ->
  ((h + k) mod cap = (h + k') mod cap)%nat -> k = k'.
Proof.
  intros Hk Hk' Heq.
  pose proof (Nat.div_mod_eq (h + k) cap) as E1.
  pose proof (Nat.div_mod_eq (h + k') cap) as E2.
  rewrite Heq in E1.
  assert (Hq : ((h + k) / cap = (h + k') / cap)%nat).
  { destruct (Nat.lt_trichotomy ((h + k) / cap) ((h + k') / cap))
      as [Hlt | [Heq' | Hgt]]; [ | exact Heq' | ]; nia. }
  rewrite Hq in E1. lia.
Qed.

Lemma mod_slot_succ (cap h n : nat) :
  (S ((h + n) mod cap) mod cap = (h + S n) mod cap)%nat.
Proof.
  destruct (Nat.eq_dec cap 0%nat) as [-> | Hcap]; [ simpl; lia | ].
  replace (S ((h + n) mod cap)) with ((h + n) mod cap + 1)%nat by lia.
  rewrite Nat.Div0.add_mod_idemp_l. f_equal. lia.
Qed.

Lemma mod_slot_head_succ (cap h k : nat) :
  ((S h mod cap + k) mod cap = (h + S k) mod cap)%nat.
Proof.
  destruct (Nat.eq_dec cap 0%nat) as [-> | Hcap]; [ simpl; lia | ].
  rewrite Nat.Div0.add_mod_idemp_l. f_equal. lia.
Qed.

Lemma vec_at_of_nat {A : Type} (v : list A) (n : nat) (a : A) :
  vec_at v (Z.of_nat n) = Ok a <-> v !! n = Some a.
Proof.
  rewrite vec_at_Ok, Nat2Z.id. split; [ intros [_ Hl]; exact Hl | intros Hl; split; [ lia | exact Hl ] ].
Qed.

Section RATInvariant.

Context {FU : Type} `{FunctionalUnit FU}.
Variable RS_locked : RS.t -> Z -> bool.

Lemma reset_rat_inv (rs_size rob_size : nat) (regs : list Z) (fus : list FU) :
  rat_inv (reset rs_size rob_size regs fus).
Proof.
  unfold rat_inv, reset, rob_wf, rob_slot. simpl. rewrite length_replicate.
  split.
  { split; [ lia | ]. split; [ lia | ].
    destruct rob_size; [ reflexivity | ]. rewrite Nat.Div0.mod_0_l. reflexivity. }
  split; [ intros r t Hl; rewrite lookup_empty in Hl; discriminate | ].
  split; [ constructor | ]. apply Forall_replicate. exact I.
Qed.

Lemma commit_rat_inv (c c' : Core FU) : rat_inv c -> commit c = Ok c' -> rat_inv c'.
Proof.
  intros Hinv. pose proof Hinv as (Hwf & Hrat & Hq & Hst). unfold commit.
  destruct (ROB.empty (ROB_ c)) eqn:Hempty;
    [ intros [= <-]; exact Hinv | ].
  destruct (ROB.get_entry (ROB_ c) _) as [rob_head | ] eqn:Hhead; simpl; [ | discriminate ].
  destruct (ROB.ready rob_head); [ | intros [= <-]; exact Hinv ].
  destruct (ROB.instr rob_head) as [instr | ] eqn:Hinstr; [ | discriminate ].
  destruct (commit_write c _ rob_head instr) as [[regs rat] | ] eqn:Hw; simpl; [ | discriminate ].
  destruct (perf_stats_instrs c <=? fetched_instrs_ c); [ | discriminate ].
  intros [= <-].
  destruct Hwf as (Hcount & Hhd & Htail).
  unfold ROB.empty in Hempty. apply Nat.eqb_neq in Hempty.
  unfold ROB.get_entry, ROB.head_index in Hhead. apply vec_at_of_nat in Hhead.
  assert (Hcap : (ROB.head (ROB_ c) < length (ROB.store (ROB_ c)))%nat) by lia.
  unfold rat_inv, rob_wf, rat_entry_ok, rob_slot in *. simpl.
  split.
  { split; [ lia | ]. split.
    - right. apply Nat.mod_upper_bound. lia.
    - rewrite Htail, mod_slot_head_succ. f_equal. lia. }
  split; [ | split; assumption ].
  intros r t Hl.
  assert (Hold : RAT_ c !! r = Some t
                 /\ (use_rd (getExeFlags instr) = true ->
                     RAT_ c !! getRd instr = Some (Z.of_nat (ROB.head (ROB_ c))) ->
                     r <> getRd instr)).
  { unfold commit_write in Hw.
    destruct (use_rd (getExeFlags instr)).
    - destruct (vec_set (reg_file_ c) _ _) as [regs1 | ]; simpl in Hw; [ | discriminate ].
      unfold ROB.head_index in Hw. case_bool_decide as Hsame.
      + injection Hw as _ <-. apply lookup_delete_Some in Hl as [Hne Hl].
        split; [ exact Hl | ]. intros _ _. congruence.
      + injection Hw as _ <-. split; [ exact Hl | ]. intros _ Habs. contradiction.
    - injection Hw as _ <-. split; [ exact Hl | ]. intros Habs. discriminate Habs. }
  destruct Hold as [Hl0 Hguard].
  destruct (Hrat r t Hl0) as (k & e & i & Hk & Ht & He & Hi & Huse & Hrd).
  destruct k as [ | k ].
  - exfalso. rewrite Nat.add_0_r, Nat.mod_small in He, Ht by lia.
    rewrite Hhead in He. injection He as <-.
    rewrite Hinstr in Hi. injection Hi as <-.
    apply (Hguard Huse); [ | symmetry; exact Hrd ].
    rewrite Hrd, Hl0, Ht. reflexivity.
  - exists k, e, i. rewrite mod_slot_head_succ.
    repeat split; try assumption. lia.
Qed.

Lemma writeback_rat_inv (c c' : Core FU) : rat_inv c -> writeback c = Ok c' -> rat_inv c'.
Proof.
  intros Hinv. pose proof Hinv as (Hwf & Hrat & Hq & Hst). unfold writeback.
  destruct (CDB_ c) as [cdb_data | ]; [ | intros [= <-]; exact Hinv ].
  destruct (RS.release _ _) as [rs1 | ]; simpl; [ | discriminate ].
  destruct (ROB.update cdb_data (ROB_ c)) as [rob | ] eqn:Hupd; simpl; [ | discriminate ].
  intros [= <-].
  pose proof (ROB_update_x0 _ _ _ Hst Hupd) as Hst'.
  apply ROB_update_Ok in Hupd as (e0 & He0 & ->).
  unfold ROB.get_entry in He0. apply vec_at_Ok in He0 as [_ He0].
  unfold rat_inv, rob_wf, rat_entry_ok, rob_slot in *. simpl in *.
  rewrite length_insert.
  split; [ exact Hwf | ]. split; [ | split; assumption ].
  intros r t Hl. destruct (Hrat r t Hl) as (k & e & i & Hk & Ht & He & Hi & Huse & Hrd).
  destruct (Nat.eq_dec ((ROB.head (ROB_ c) + k) mod length (ROB.store (ROB_ c)))%nat
                       (Z.to_nat (cdb_rob_index cdb_data))) as [Heq | Hne].
  - exists k, (ROB.mkEntry (ROB.instr e0) (cdb_result cdb_data) true), i.
    rewrite Heq in He. rewrite He0 in He. injection He as <-.
    repeat split; try assumption.
    rewrite Heq. apply list_lookup_insert_eq. eapply lookup_lt_Some, He0.
  - exists k, e, i. repeat split; try assumption.
    rewrite list_lookup_insert_ne by congruence. exact He.
Qed.

Lemma execute_rat_inv (c c' : Core FU) :
  rat_inv c -> execute RS_locked c = Ok c' -> rat_inv c'.
Proof.
  intros Hinv. unfold execute.
  destruct (publish_done _ _) as [[fus1 cdb] | ]; simpl; [ | discriminate ].
  destruct (dispatch_from _ _ _ _ _) as [[rs fus2] | ]; simpl; [ | discriminate ].
  intros [= <-]. exact Hinv.
Qed.

Lemma issue_rat_inv (c c' : Core FU) : rat_inv c -> issue c = Ok c' -> rat_inv c'.
Proof.
  intros Hinv. pose proof Hinv as (Hwf & Hrat & Hq & Hst). unfold issue.
  destruct (issue_queue_ c) as [ | instr queue_rest ] eqn:Hqueue;
    [ intros [= <-]; exact Hinv | ].
  destruct (RS.full (RS_ c));
    [ intros [= <-]; exact Hinv | ].
  destruct (ROB.full (ROB_ c)) eqn:Hfull;
    [ intros [= <-]; exact Hinv | ].
  destruct (read_operand c _ (getRs1 instr)) as [[d1 t1] | ]; simpl; [ | discriminate ].
  destruct (read_operand c _ (getRs2 instr)) as [[d2 t2] | ]; simpl; [ | discriminate ].
  destruct (RS.issue _ _ _ _ _ _ _) as [[k0 rs] | ]; simpl; [ | discriminate ].
  intros [= <-].
  destruct Hwf as (Hcount & Hhd & Htail).
  unfold ROB.full in Hfull. apply Nat.eqb_neq in Hfull.
  assert (Hcap : (ROB.count (ROB_ c) < length (ROB.store (ROB_ c)))%nat) by lia.
  assert (Htl : (ROB.tail (ROB_ c) < length (ROB.store (ROB_ c)))%nat).
  { rewrite Htail. apply Nat.mod_upper_bound. lia. }
  unfold rat_inv, rob_wf, rat_entry_ok, rob_slot in *. simpl.
  rewrite length_insert.
  split.
  { split; [ lia | ]. split; [ exact Hhd | ].
    rewrite Htail, mod_slot_succ. reflexivity. }
  split.
  { assert (Hkeep : forall r t, RAT_ c !! r = Some t ->
              exists (k : nat) e i,
                (k < S (ROB.count (ROB_ c)))%nat
                /\ t = Z.of_nat ((ROB.head (ROB_ c) + k) mod length (ROB.store (ROB_ c)))%nat
                /\ <[ROB.tail (ROB_ c) := ROB.mkEntry (Some instr) 0 false]>
                     (ROB.store (ROB_ c))
                   !! ((ROB.head (ROB_ c) + k) mod length (ROB.store (ROB_ c)))%nat = Some e
                /\ ROB.instr e = Some i /\ use_rd (getExeFlags i) = true /\ getRd i = r).
    { intros r t Hl. destruct (Hrat r t Hl) as (k & e & i & Hk & Ht & He & Hi & Huse & Hrd).
      exists k, e, i. repeat split; try assumption; [ lia | ].
      rewrite list_lookup_insert_ne; [ exact He | ].
      rewrite Htail. intros Heq. apply mod_slot_inj in Heq; lia. }
    intros r t Hl.
    destruct (use_rd (getExeFlags instr)) eqn:Huse; [ | apply Hkeep; exact Hl ].
    destruct (Z.eq_dec (getRd instr) r) as [Hr | Hr].
    - subst r. rewrite lookup_insert_eq in Hl. injection Hl as <-.
      exists (ROB.count (ROB_ c)), (ROB.mkEntry (Some instr) 0 false), instr.
      rewrite <- Htail. repeat split; try assumption; [ lia | ].
      apply list_lookup_insert_eq. exact Htl.
    - rewrite lookup_insert_ne in Hl by exact Hr. apply Hkeep. exact Hl. }
  split; [ exact (Forall_inv_tail Hq) | ].
  apply Forall_insert; [ assumption | ]. exact (Forall_inv Hq).
Qed.

Lemma deliver_rat_inv (fetched : list (Z * Z * Z)) (c c' : Core FU) :
  rat_inv c -> deliver fetched c = Ok c' -> rat_inv c'.
Proof.
  revert c. induction fetched as [ | [[w pc] uuid] more IH ]; intros c Hinv; simpl.
  - intros [= <-]. exact Hinv.
  - destruct (decode w pc uuid) as [[instr | ] | ] eqn:Hdec; simpl; try discriminate.
    apply IH. destruct Hinv as (Hwf & Hrat & Hq & Hst).
    unfold rat_inv. simpl.
    split; [ exact Hwf | ]. split; [ exact Hrat | ]. split; [ | exact Hst ].
    apply Forall_app. split; [ assumption | ].
    constructor; [ | constructor ].
    intros Huse. eapply decode_rd0_clears_use_rd; eassumption.
Qed.

Lemma run_rat_inv (cycles : list (list (Z * Z * Z))) (c c' : Core FU) :
  rat_inv c -> run RS_locked cycles c = Ok c' -> rat_inv c'.
Proof.
  revert c. induction cycles as [ | fetched more IH ]; intros c Hinv; simpl.
  - intros [= <-]. exact Hinv.
  - destruct (exited_ c); [ intros [= <-]; exact Hinv | ].
    unfold tick.
    destruct (commit c) as [c1 | ] eqn:H1; simpl; [ | discriminate ].
    destruct (writeback c1) as [c2 | ] eqn:H2; simpl; [ | discriminate ].
    destruct (execute RS_locked c2) as [c3 | ] eqn:H3; simpl; [ | discriminate ].
    destruct (issue c3) as [c4 | ] eqn:H4; simpl; [ | discriminate ].
    destruct (deliver fetched c4) as [c5 | ] eqn:H5; simpl; [ | discriminate ].
    apply IH.
    eapply deliver_rat_inv; [ | exact H5 ].
    eapply issue_rat_inv; [ | exact H4 ].
    eapply execute_rat_inv; [ | exact H3 ].
    eapply writeback_rat_inv; [ | exact H2 ].
    eapply commit_rat_inv; [ | exact H1 ]. exact Hinv.
Qed.

(** After any number of cycles of any program from reset, whatever the
    functional units compute: every register the RAT maps points to a slot
    of the reorder buffer that is allocated (between head and tail) and
    holds an instruction with [use_rd] whose rd is that register; register
    0 is never mapped; and the reorder buffer holds at most its capacity. *)
Theorem RAT_names_producers
    (rs_size rob_size : nat) (regs : list Z) (fus : list FU)
    (cycles : list (list (Z * Z * Z))) (c' : Core FU) :
  run RS_locked cycles (reset rs_size rob_size regs fus) = Ok c' ->
  (forall r t, RAT_ c' !! r = Some t ->
     exists (k : nat) (e : ROB.entry_t) (i : Instr),
       (k < ROB.count (ROB_ c'))%nat
       /\ t = Z.of_nat (rob_slot (ROB_ c') k)
       /\ ROB.get_entry (ROB_ c') t = Ok e
       /\ ROB.instr e = Some i
       /\ use_rd (getExeFlags i) = true
       /\ getRd i = r)
  /\ RAT_ c' !! 0 = None
  /\ (ROB.count (ROB_ c') <= length (ROB.store (ROB_ c')))%nat
  /\ ROB.tail (ROB_ c') = rob_slot (ROB_ c') (ROB.count (ROB_ c')).
Proof.
  intros Hrun.
  pose proof (run_rat_inv _ _ _ (reset_rat_inv rs_size rob_size regs fus) Hrun)
    as (Hwf & Hrat & _ & Hst).
  assert (Hmapped : forall r t, RAT_ c' !! r = Some t ->
            exists (k : nat) (e : ROB.entry_t) (i : Instr),
              (k < ROB.count (ROB_ c'))%nat
              /\ t = Z.of_nat (rob_slot (ROB_ c') k)
              /\ ROB.get_entry (ROB_ c') t = Ok e
              /\ ROB.instr e = Some i
              /\ use_rd (getExeFlags i) = true
              /\ getRd i = r
              /\ x0_entry_ok e).
  { intros r t Hl. destruct (Hrat r t Hl) as (k & e & i & Hk & Ht & He & Hi & Huse & Hrd).
    exists k, e, i. repeat split; try assumption.
    - rewrite Ht. apply vec_at_of_nat. exact He.
    - exact (Forall_lookup_1 _ _ _ _ Hst He). }
  split.
  { intros r t Hl. destruct (Hmapped r t Hl) as (k & e & i & H1 & H2 & H3 & H4 & H5 & H6 & _).
    exists k, e, i. repeat split; assumption. }
  split.
  { destruct (RAT_ c' !! 0) as [t | ] eqn:Hl; [ exfalso | reflexivity ].
    destruct (Hmapped 0 t Hl) as (k & e & i & _ & _ & _ & Hi & Huse & Hrd & Hok).
    unfold x0_entry_ok in Hok. rewrite Hi in Hok. exact (Hok Huse Hrd). }
  destruct Hwf as (Hcount & _ & Htail). split; assumption.
Qed.

End RATInvariant.

(** Scenario 7 after five cycles: x1 is mapped to ROB entry 1, the second
    writer. *)
Lemma RAT_names_producers_witness :
  exists e i, RAT_ two_writers_core !! 1 = Some 1
              /\ ROB.get_entry (ROB_ two_writers_core) 1 = Ok e
              /\ ROB.instr e = Some i /\ getRd i = 1 /\ getImm i = 2.
Proof.
  assert (Hrun : run never_locked
                   [[(0x00100093, 0, 1); (0x00200093, 4, 2)]; []; []; []; []]
                   scenario_core = Ok two_writers_core)
    by (vm_compute; reflexivity).
  destruct (RAT_names_producers never_locked _ _ _ _ _ _ Hrun) as (Hmap & _).
  destruct (Hmap 1 1 eq_refl) as (k & e & i & _ & _ & He & Hi & _ & Hrd).
  exists e, i. split; [ reflexivity | ]. split; [ exact He | ].
  split; [ exact Hi | ]. split; [ exact Hrd | ].
  vm_compute in He. injection He as <-. injection Hi as <-. reflexivity.
Defined.

(** ** Operands an instruction does not use *)

Section UnusedOperands.

Context {FU : Type}.

(** An operand the instruction does not use never waits: whatever the RAT
    says of the register field, the station filled by the issue has the tag
    -1 and the data 0 for it, and neither the RAT, the reorder buffer nor
    the register file is read (no index can be out of range). *)
Theorem issue_unused_operands (c c' : Core FU) (instr : Instr) (queue_rest : list Instr) :
  issue_queue_ c = instr :: queue_rest ->
  RS.full (RS_ c) = false ->
  ROB.full (ROB_ c) = false ->
  (use_rs1 (getExeFlags instr) = false -> use_rs2 (getExeFlags instr) = false ->
   exists c1, issue c = Ok c1)
  /\ (issue c = Ok c' ->
      exists (rs_index : nat) (e : RS.entry_t),
        RS_ c' !! rs_index = Some e /\ RS.instr e = Some instr
        /\ (use_rs1 (getExeFlags instr) = false ->
            RS.rs1_tag e = -1 /\ RS.rs1_data e = 0)
        /\ (use_rs2 (getExeFlags instr) = false ->
            RS.rs2_tag e = -1 /\ RS.rs2_data e = 0)
        /\ (use_rs1 (getExeFlags instr) = false ->
            use_rs2 (getExeFlags instr) = false ->
            RS.operands_ready e = true)).
Proof.
  intros Hq Hrs Hrob. unfold issue. rewrite Hq, Hrs, Hrob.
  destruct (RS_free_slot_not_full (RS_ c) 0 Hrs) as [k Hfree].
  pose proof (RS_free_slot_range _ _ _ Hfree) as Hk.
  unfold RS.issue. rewrite Hfree. split.
  - intros -> ->. simpl. eauto.
  - destruct (read_operand c _ (getRs1 instr)) as [[d1 t1] | ] eqn:H1; [ | discriminate ].
    simpl.
    destruct (read_operand c _ (getRs2 instr)) as [[d2 t2] | ] eqn:H2; [ | discriminate ].
    simpl. intros [= <-]. simpl.
    eexists k, _. split; [ apply list_lookup_insert_eq; lia | ].
    simpl. split; [ reflexivity | ].
    assert (G1 : use_rs1 (getExeFlags instr) = false -> t1 = -1 /\ d1 = 0).
    { intros Hu. rewrite Hu in H1. injection H1 as <- <-. auto. }
    assert (G2 : use_rs2 (getExeFlags instr) = false -> t2 = -1 /\ d2 = 0).
    { intros Hu. rewrite Hu in H2. injection H2 as <- <-. auto. }
    split; [ exact G1 | ]. split; [ exact G2 | ].
    intros Hu1 Hu2. destruct (G1 Hu1) as [-> _]. destruct (G2 Hu2) as [-> _].
    reflexivity.
Qed.

End UnusedOperands.

(** The JALR of [collision_program] does not use rs2. *)
Lemma issue_unused_operands_witness :
  exists c' (rs_index : nat) e,
    issue pending_operand_core = Ok c'
    /\ RS_ c' !! rs_index = Some e
    /\ RS.rs2_tag e = -1 /\ RS.rs2_data e = 0.
Proof.
  assert (Hc : exists c', issue pending_operand_core = Ok c')
    by (eexists; vm_compute; reflexivity).
  destruct Hc as [c' Hc'].
  destruct (issue_unused_operands pending_operand_core c' _ _ eq_refl eq_refl eq_refl)
    as [_ Hprop].
  destruct (Hprop Hc') as (k & e & He & _ & _ & H2 & _).
  destruct (H2 eq_refl) as [Ht Hd].
  exists c', k, e. repeat split; assumption.
Defined.

(** ** Witnesses of the decoder tables *)

(** SW x5, 8(x2) goes to the LSU. *)
Lemma decode_fu_routing_witness :
  exists i, decode 0x00512423 0 0 = Ok (Some i) /\ getFUType i = FUType.LSU.
Proof.
  eexists. split; [ reflexivity | ].
  apply (decode_fu_routing 0x00512423 0 0 _ eq_refl).
Defined.

(** BEQ x1, x2, -4 reads rs1 and rs2 and writes no register. *)
Lemma decode_register_flags_witness :
  exists i, decode 0xfe208ee3 0 0 = Ok (Some i)
            /\ use_rd (getExeFlags i) = false
            /\ use_rs1 (getExeFlags i) = true
            /\ use_rs2 (getExeFlags i) = true.
Proof.
  eexists. split; [ reflexivity | ].
  apply (decode_register_flags 0xfe208ee3 0 0 _ eq_refl).
Defined.

(** EBREAK (0x00100073) has [is_exit] and no other class flag. *)
Lemma decode_class_flags_witness :
  exists i, decode 0x00100073 0 0 = Ok (Some i)
            /\ is_exit (getExeFlags i) = true /\ is_csr (getExeFlags i) = false.
Proof.
  eexists. split; [ reflexivity | ].
  destruct (decode_class_flags 0x00100073 0 0 _ eq_refl) as (_ & _ & Hcsr & _ & Hexit).
  split; [ exact Hexit | exact Hcsr ].
Defined.

(** BLTU x1, x2, 8 (0x0020e463). *)
Lemma decode_branch_op_witness :
  exists i, decode 0x0020e463 0 0 = Ok (Some i)
            /\ getBrOp i = BrOp.BLTU /\ alu_s1_PC (getExeFlags i) = true.
Proof.
  eexists. split; [ reflexivity | ].
  apply (decode_branch_op 0x0020e463 0 0 _ eq_refl).
Defined.

(** FENCE (0x0000000f) has no ALU micro-op. *)
Lemma decode_alu_op_other_witness :
  exists i, decode 0x0000000f 0 0 = Ok (Some i) /\ getAluOp i = AluOp.NONE.
Proof.
  eexists. split; [ reflexivity | ].
  destruct (decode_alu_op_other 0x0000000f 0 0 _ eq_refl) as [Hnone _].
  apply Hnone. reflexivity.
Defined.

(** CSRRW x5, 0x300, x6 has an immediate that is not ALU operand 2. *)
Lemma decode_imm_flags_witness :
  exists i, decode 0x300312f3 0 0 = Ok (Some i)
            /\ use_imm (getExeFlags i) = true /\ alu_s2_imm (getExeFlags i) = false.
Proof.
  eexists. split; [ reflexivity | ].
  apply (decode_imm_flags 0x300312f3 0 0 _ eq_refl).
Defined.
